(** * process_data: beat segmentation and record aggregation

    A shallow embedding of the class [process_data] of
    [submission/project-pre-processing.ipynb]: the segmenter
    [separate_hearbeats], the aggregator [create_img_arrays] and the two
    accessor properties.  Python values are modelled as follows.

    - [float] and [numpy.float64] are IEEE 754 binary64 numbers: the
      executable specification [spec_float] with [prec = 53] and
      [emax = 1024], rounding to nearest even.
    - [int] is [Z].  Sample positions are [numpy.int64] in the source, and
      [pos - frame] and [pos + frame] combine a position with the Python int
      [frame]: numpy converts [frame] to [int64] and raises [OverflowError]
      when it does not fit (the promotion rules of numpy 2), and the 64-bit
      difference or sum wraps around modulo [2 ^ 64].  numpy 1 treats an
      operand outside [int64] differently; for a frame that fits, both do
      what is written here, and every statement that needs the frame to fit
      says so.
    - A [dict] from symbols to classes is a [gmap string Z].
    - A [list] and a one-dimensional array are a [list].  A two-dimensional
      array of shape (n, k) is the list of its k columns, each a list of n
      items, which tells an array without columns from an array without
      rows.  An array holds fewer than [2 ^ 63] items and a list can be
      longer: [np.array], which allocates the copy of column 0, refuses such
      a list.  [np.array] applied to a list of images of one shape is that
      list.
    - A raised exception is the [Raise] case of [result].  An exception
      leaves the instance as the statements before it made it.
    - What wfdb and matplotlib compute is not modelled: the results of the
      methods that wrap them are parameters.  The [print] calls are left
      out. *)

From Stdlib Require Import ZArith Lia.
From Stdlib Require Import SpecFloat PrimFloat FloatOps FloatAxioms.
From stdpp Require Import gmap strings list.

Open Scope Z_scope.

Set Warnings "-inexact-float".

(** ** Exceptions *)

Inductive exn : Type :=
  | ValueError
  | OverflowError
  | IndexError
  | KeyError
  | TypeError
  | AssertionError
  | MemoryError
  | ExternalError (who : string).

Inductive result (A : Type) : Type :=
  | Ok (a : A)
  | Raise (e : exn).

Arguments Ok {A} a.
Arguments Raise {A} e.

(** Sequencing: an exception skips the rest. *)
#[global] Instance result_bind : MBind result := fun A B k c =>
  match c with
  | Ok a => k a
  | Raise e => Raise e
  end.

#[global] Instance result_ret : MRet result := fun A a => Ok a.

(** [for x in xs: st = body(st, x)], stopping at the first exception. *)
Fixpoint for_each {A S : Type} (body : S -> A -> result S) (xs : list A) (st : S)
  : result S :=
  match xs with
  | [] => Ok st
  | x :: xs' => st' ← body st x; for_each body xs' st'
  end.

(** [[f(x) for x in xs]], stopping at the first exception. *)
Fixpoint list_comprehension {A B : Type} (f : A -> result B) (xs : list A)
  : result (list B) :=
  match xs with
  | [] => Ok []
  | x :: xs' => y ← f x; ys ← list_comprehension f xs'; Ok (y :: ys)
  end.

(** ** Sequences *)

(** Normalisation of one bound of a slice with step 1 over a sequence of
    length [len]: a negative bound counts from the end, and the result is
    clipped to [0 .. len]. *)
Definition adjust_index (len i : Z) : Z :=
  if i <? 0 then Z.max (i + len) 0 else Z.min i len.

(** [l[start:stop]] for a list and for a one-dimensional array. *)
Definition py_slice {A : Type} (l : list A) (start stop : Z) : list A :=
  let len := Z.of_nat (length l) in
  let a := adjust_index len start in
  let b := adjust_index len stop in
  take (Z.to_nat (b - a)) (drop (Z.to_nat a) l).

(** [l[i]] for an index [i] produced by [enumerate], hence not negative. *)
Definition getitem {A : Type} (l : list A) (i : nat) : result A :=
  match l !! i with
  | Some x => Ok x
  | None => Raise IndexError
  end.

(** [enumerate(l)], counting from [start]. *)
Fixpoint enumerate_from {A : Type} (start : nat) (l : list A) : list (nat * A) :=
  match l with
  | [] => []
  | x :: l' => (start, x) :: enumerate_from (S start) l'
  end.

Definition enumerate {A : Type} (l : list A) : list (nat * A) := enumerate_from 0 l.

(** [np.array(a)] for a one-dimensional [a]: a new array with the items of
    [a].  No array has [2 ^ 63] items or more. *)
Definition np_array {A : Type} (a : list A) : result (list A) :=
  if Z.of_nat (length a) <? 2 ^ 63 then Ok a else Raise MemoryError.

(** [np.array(signal[:, 0])]: a copy of column 0 of a two-dimensional array.
    An array without columns has no column 0, however many rows it has. *)
Definition column0 {A : Type} (columns : list (list A)) : result (list A) :=
  column ← getitem columns 0; np_array column.

(** ** 64-bit integers *)

(** [n] is a value of [numpy.int64]. *)
Definition fits_int64 (n : Z) : bool := (- 2 ^ 63 <=? n) && (n <? 2 ^ 63).

(** The value of [numpy.int64] that a sum taken in 64 bits leaves. *)
Definition int64_wrap (z : Z) : Z := (z + 2 ^ 63) mod 2 ^ 64 - 2 ^ 63.

(** The conversion of the Python int [n] to [numpy.int64]. *)
Definition int64_of_int (n : Z) : result Z :=
  if fits_int64 n then Ok n else Raise OverflowError.

(** [pos - n] and [pos + n] for a [numpy.int64] [pos] and a Python int [n]. *)
Definition int64_sub (pos n : Z) : result Z :=
  m ← int64_of_int n; Ok (int64_wrap (pos - m)).

Definition int64_add (pos n : Z) : result Z :=
  m ← int64_of_int n; Ok (int64_wrap (pos + m)).

(** ** Dictionaries *)

(** [k in d] *)
Definition dict_contains (d : gmap string Z) (k : string) : bool :=
  bool_decide (is_Some (d !! k)).

(** [d[k]] *)
Definition dict_getitem (d : gmap string Z) (k : string) : result Z :=
  match d !! k with
  | Some v => Ok v
  | None => Raise KeyError
  end.

(** ** Floats *)

Definition fmul : spec_float -> spec_float -> spec_float := SFmul prec emax.
Definition fdiv : spec_float -> spec_float -> spec_float := SFdiv prec emax.

(** The literal [0.786], that is [0x1.926e978d4fdf4p-1]. *)
Definition scale_factor : spec_float := S754_finite false 7079658614226420 (-53).

(** The integer [2] converted to a float, as [/] does with its right operand. *)
Definition float_of_two : spec_float := S754_finite false 4503599627370496 (-51).

(** [int(x)]: truncation towards zero; [nan] and the infinities raise. *)
Definition py_int (x : spec_float) : result Z :=
  match x with
  | S754_zero _ => Ok 0
  | S754_finite s m e => Ok (cond_Zopp s (Z.shiftl (Zpos m) e))
  | S754_infinity _ => Raise OverflowError
  | S754_nan => Raise ValueError
  end.

(** [math.floor(x)]: the greatest integer not above [x]; [nan] and the
    infinities raise as for [int]. *)
Definition py_floor (x : spec_float) : result Z :=
  match x with
  | S754_zero _ => Ok 0
  | S754_finite s m e => Ok (Z.shiftl (cond_Zopp s (Zpos m)) e)
  | S754_infinity _ => Raise OverflowError
  | S754_nan => Raise ValueError
  end.

(** A binary64 number that is finite and above zero. *)
Definition positive_finite (x : spec_float) : bool :=
  match x with
  | S754_finite false m e => bounded prec emax m e
  | _ => false
  end.

(** Zero, or a finite number above zero whose mantissa has at most 53 bits
    and whose exponent is in range. *)
Definition nonneg_finite (x : spec_float) : Prop :=
  match x with
  | S754_zero s => s = false
  | S754_finite s m e => s = false /\ Zpos m < 2 ^ 53 /\ e <= 971
  | _ => False
  end.

(** ** The segmenter: [process_data.separate_hearbeats] *)

(** A [wfdb.Annotation], reduced to the two attributes the segmenter reads:
    [sample], an array of [numpy.int64], holds the positions and [symbol],
    a list, the labels, index by index. *)
Record Annotation : Type := {
  sample : list Z;
  symbol : list string
}.

(** [(mean_rate * scale_factor) / 2] *)
Definition scaled_half (mean_rate : spec_float) : spec_float :=
  fdiv (fmul mean_rate scale_factor) float_of_two.

(** [frame = int((mean_rate * scale_factor) / 2)] *)
Definition frame_of (mean_rate : spec_float) : result Z :=
  py_int (scaled_half mean_rate).

Section Segmenter.
Context {elt : Type}.

(** The objects a call can reach: the three arguments that belong to the
    caller, and the objects the call creates. *)
Record seg_state : Type := {
  arg_signal : list (list elt);
  arg_annotations : Annotation;
  arg_classes : gmap string Z;
  signal_images : list (list elt);
  labels : list Z
}.

(** [signal_images.append(w)] *)
Definition append_signal_images (w : list elt) (st : seg_state) : seg_state :=
  {| arg_signal := arg_signal st;
     arg_annotations := arg_annotations st;
     arg_classes := arg_classes st;
     signal_images := signal_images st ++ [w];
     labels := labels st |}.

(** [labels.append(c)] *)
Definition append_labels (c : Z) (st : seg_state) : seg_state :=
  {| arg_signal := arg_signal st;
     arg_annotations := arg_annotations st;
     arg_classes := arg_classes st;
     signal_images := signal_images st;
     labels := labels st ++ [c] |}.

(** The state on entry: both result lists are empty. *)
Definition seg_enter (signal : list (list elt)) (annotations : Annotation)
    (classes : gmap string Z) : seg_state :=
  {| arg_signal := signal;
     arg_annotations := annotations;
     arg_classes := classes;
     signal_images := [];
     labels := [] |}.

(** One turn of the loop over [enumerate(annotations.sample)].  [signal1]
    is the local one-dimensional copy [np.array(signal[:, 0])]. *)
Definition seg_body (frame : Z) (signal1 : list elt) (st : seg_state)
    (ip : nat * Z) : result seg_state :=
  let '(i, pos) := ip in
  sym ← getitem (symbol (arg_annotations st)) i;
  if dict_contains (arg_classes st) sym then
    lo ← int64_sub pos frame;
    hi ← int64_add pos frame;
    let st1 := append_signal_images (py_slice signal1 lo hi) st in
    sym' ← getitem (symbol (arg_annotations st1)) i;
    c ← dict_getitem (arg_classes st1) sym';
    Ok (append_labels c st1)
  else Ok st.

(** The whole call, up to the [return]. *)
Definition seg_run (signal : list (list elt)) (annotations : Annotation)
    (mean_rate : spec_float) (classes : gmap string Z) : result seg_state :=
  let st := seg_enter signal annotations classes in
  frame ← frame_of mean_rate;
  signal1 ← column0 (arg_signal st);
  for_each (seg_body frame signal1) (enumerate (sample (arg_annotations st))) st.

(** [return signal_images, labels] *)
Definition separate_hearbeats (signal : list (list elt)) (annotations : Annotation)
    (mean_rate : spec_float) (classes : gmap string Z)
  : result (list (list elt) * list Z) :=
  st ← seg_run signal annotations mean_rate classes;
  Ok (signal_images st, labels st).

End Segmenter.

Arguments seg_state : clear implicits.

(** *** The result of the segmenter in closed form *)

(** The annotations as pairs (position, symbol). *)
Definition annotation_pairs (a : Annotation) : list (Z * string) :=
  zip (sample a) (symbol a).

(** The annotations whose symbol is a key of the table, in their order. *)
Definition kept (classes : gmap string Z) (pairs : list (Z * string))
  : list (Z * string) :=
  filter (fun p => is_Some (classes !! p.2)) pairs.

(** [signal1[pos - frame : pos + frame]] for a frame that fits in 64 bits. *)
Definition window {elt : Type} (signal1 : list elt) (frame pos : Z) : list elt :=
  py_slice signal1 (int64_wrap (pos - frame)) (int64_wrap (pos + frame)).

(** The frame of a record is a value of [numpy.int64]. *)
Definition frame_fits_int64 (mean_rate : spec_float) : bool :=
  match frame_of mean_rate with
  | Ok frame => fits_int64 frame
  | Raise _ => false
  end.

(** [n] is the floor of the number [x]: [n <= x < n + 1], with both sides
    scaled to integers. *)
Definition is_floor (x : spec_float) (n : Z) : Prop :=
  match x with
  | S754_zero _ => n = 0
  | S754_finite s m e =>
      n * 2 ^ Z.max 0 (- e) <= cond_Zopp s (Zpos m) * 2 ^ Z.max 0 e
      /\ cond_Zopp s (Zpos m) * 2 ^ Z.max 0 e < (n + 1) * 2 ^ Z.max 0 (- e)
  | _ => False
  end.

(** The frame as the specification words it, over the real numbers: the
    floor of [(mean * 0.786) / 2] for the number [mean = m * 2 ^ e] and the
    decimal fraction [0.786 = 786 / 1000], without any rounding. *)
Definition real_floor_frame (mean_rate : spec_float) : option Z :=
  match mean_rate with
  | S754_zero _ => Some 0
  | S754_finite s m e =>
      Some ((cond_Zopp s (Zpos m) * 2 ^ Z.max 0 e * 786)
            / (2 ^ Z.max 0 (- e) * 1000 * 2))
  | _ => None
  end.

Definition windows_of {elt : Type} (signal1 : list elt) (frame : Z)
    (classes : gmap string Z) (pairs : list (Z * string)) : list (list elt) :=
  (fun p => window signal1 frame p.1) <$> kept classes pairs.

Definition labels_of (classes : gmap string Z) (pairs : list (Z * string)) : list Z :=
  omap (fun p => classes !! p.2) pairs.

(** A state with more windows and labels at the end of its two lists. *)
Definition seg_extend {elt : Type} (st : seg_state elt) (ws : list (list elt))
    (cs : list Z) : seg_state elt :=
  {| arg_signal := arg_signal st;
     arg_annotations := arg_annotations st;
     arg_classes := arg_classes st;
     signal_images := signal_images st ++ ws;
     labels := labels st ++ cs |}.

(** The part of [[pos - frame, pos + frame)] that lies inside the index range
    of the signal, taken from the signal without padding. *)
Definition clipped_window {elt : Type} (signal1 : list elt) (frame pos : Z) : list elt :=
  let len := Z.of_nat (length signal1) in
  let a := Z.max (pos - frame) 0 in
  let b := Z.min (pos + frame) len in
  take (Z.to_nat (b - a)) (drop (Z.to_nat a) signal1).

(** [w] is a run of consecutive elements of [l]. *)
Definition contiguous_in {A : Type} (w l : list A) : Prop :=
  exists before after, l = before ++ w ++ after.

(** ** The aggregator: [process_data.create_img_arrays] *)

(** [start = 2] and [end = -1]: the bounds of the slice that drops the first
    two and the last one of the beats of a record. *)
Definition start : Z := 2.
Definition end_ : Z := -1.

Section Aggregator.
Context {elt image fields : Type}.

(** The instance: its private lists [__image_arrays] and [__label_strings]. *)
Record process_data : Type := {
  image_arrays_ : list image;
  label_strings_ : list Z
}.

(** [process_data()] *)
Definition init : process_data :=
  {| image_arrays_ := []; label_strings_ := [] |}.

(** The properties [image_arrays] and [label_strings]: each packs its list
    into an array, element by element. *)
Definition image_arrays (self : process_data) : list image := image_arrays_ self.
Definition label_strings (self : process_data) : list Z := label_strings_ self.

(** [self.__label_strings.extend(cs)] *)
Definition extend_label_strings (cs : list Z) (self : process_data) : process_data :=
  {| image_arrays_ := image_arrays_ self;
     label_strings_ := label_strings_ self ++ cs |}.

(** [self.__image_arrays.extend(imgs)] *)
Definition extend_image_arrays (imgs : list image) (self : process_data) : process_data :=
  {| image_arrays_ := image_arrays_ self ++ imgs;
     label_strings_ := label_strings_ self |}.

(** What the calls to wfdb and matplotlib yield is left open:
    [load_data] and [get_mean_heartrate] are the two methods that wrap wfdb,
    and [call_get_image_array beat] is the value of the expression
    [self.get_image_array(beat)]. *)
Variable load_data : string -> result (list (list elt) * fields * Annotation).
Variable get_mean_heartrate : list (list elt) -> fields -> result spec_float.
Variable call_get_image_array : list elt -> result image.

(** The loop body from the [assert] on, given what the segmenter returned.
    The instance is returned as the body leaves it, also when it raises. *)
Definition accumulate (beats : list (list elt)) (labels : list Z)
    (self : process_data) : process_data * result unit :=
  if negb (length beats =? length labels)%nat then (self, Raise AssertionError)
  else
    let self1 := extend_label_strings (py_slice labels start end_) self in
    match list_comprehension call_get_image_array (py_slice beats start end_) with
    | Raise e => (self1, Raise e)
    | Ok imgs => (extend_image_arrays imgs self1, Ok ())
    end.

(** One turn of the loop over [record_names]. *)
Definition process_record (supergroup_classes : gmap string Z)
    (self : process_data) (record_name : string) : process_data * result unit :=
  match load_data record_name with
  | Raise e => (self, Raise e)
  | Ok (signal, flds, annotations) =>
    match get_mean_heartrate signal flds with
    | Raise e => (self, Raise e)
    | Ok mean =>
      match separate_hearbeats signal annotations mean supergroup_classes with
      | Raise e => (self, Raise e)
      | Ok (beats, labels) => accumulate beats labels self
      end
    end
  end.

(** [create_img_arrays], for any value of the rasterizer call. *)
Fixpoint create_img_arrays_with (supergroup_classes : gmap string Z)
    (record_names : list string) (self : process_data)
  : process_data * result unit :=
  match record_names with
  | [] => (self, Ok ())
  | record_name :: rest =>
    match process_record supergroup_classes self record_name with
    | (self', Ok _) => create_img_arrays_with supergroup_classes rest self'
    | (self', Raise e) => (self', Raise e)
    end
  end.

End Aggregator.

Arguments process_data : clear implicits.
Arguments init {image}.

(** [self.get_image_array(beat)] as the class has it.  The method is declared
    [def get_image_array(data)], without [self]; the bound call passes the
    instance and [beat], two arguments for its one parameter, and raises
    [TypeError] before the body runs. *)
Definition self_get_image_array {elt image : Type} (beat : list elt) : result image :=
  Raise TypeError.

(** [create_img_arrays] as the class has it. *)
Definition create_img_arrays {elt image fields : Type}
    (load_data : string -> result (list (list elt) * fields * Annotation))
    (get_mean_heartrate : list (list elt) -> fields -> result spec_float)
    (supergroup_classes : gmap string Z) (record_names : list string)
    (self : process_data image) : process_data image * result unit :=
  create_img_arrays_with load_data get_mean_heartrate self_get_image_array
    supergroup_classes record_names self.

(** Several calls on one instance, one after the other, as the notebook makes
    them; each call starts from the instance as the call before it left it. *)
Definition successive_calls {elt image fields : Type}
    (load_data : string -> result (list (list elt) * fields * Annotation))
    (get_mean_heartrate : list (list elt) -> fields -> result spec_float)
    (call_get_image_array : list elt -> result image)
    (calls : list (gmap string Z * list string)) (self : process_data image)
  : process_data image :=
  fold_left
    (fun self' call =>
       (create_img_arrays_with load_data get_mean_heartrate call_get_image_array
          call.1 call.2 self').1)
    calls self.

(** *** The dataset a run is expected to add *)

(** The pairs (window, label) a record contributes: those at the indices
    [2 .. n - 2] of what the segmenter returns for it. *)
Definition record_pairs {elt fields : Type}
    (load_data : string -> result (list (list elt) * fields * Annotation))
    (get_mean_heartrate : list (list elt) -> fields -> result spec_float)
    (supergroup_classes : gmap string Z) (record_name : string)
  : list (list elt * Z) :=
  match load_data record_name with
  | Ok (signal, flds, annotations) =>
    match get_mean_heartrate signal flds with
    | Ok mean =>
      match separate_hearbeats signal annotations mean supergroup_classes with
      | Ok (beats, cs) => zip (py_slice beats start end_) (py_slice cs start end_)
      | Raise _ => []
      end
    | Raise _ => []
    end
  | Raise _ => []
  end.

(** The pairs of several records, record after record. *)
Definition retained_pairs {elt fields : Type}
    (load_data : string -> result (list (list elt) * fields * Annotation))
    (get_mean_heartrate : list (list elt) -> fields -> result spec_float)
    (supergroup_classes : gmap string Z) (record_names : list string)
  : list (list elt * Z) :=
  concat (record_pairs load_data get_mean_heartrate supergroup_classes <$> record_names).

(** What a record or a run has appended to the instance [self] when it ends
    with the instance [self'] and the outcome [r]: images that the rasterizer
    call returned, labels that are values of the table, never more images
    than labels, and as many of both when it returned. *)
Definition appended {elt image : Type} (call_get_image_array : list elt -> result image)
    (classes : gmap string Z) (self self' : process_data image) (r : result unit) : Prop :=
  exists imgs cs,
    image_arrays_ self' = image_arrays_ self ++ imgs /\
    label_strings_ self' = label_strings_ self ++ cs /\
    (length imgs <= length cs)%nat /\
    Forall (fun img => exists w, call_get_image_array w = Ok img) imgs /\
    Forall (fun c => exists sym, classes !! sym = Some c) cs /\
    (r = Ok () -> length imgs = length cs).

(** The exception that [int] raises for a float that is not finite. *)
Definition non_finite_error (x : spec_float) : option exn :=
  match x with
  | S754_nan => Some ValueError
  | S754_infinity _ => Some OverflowError
  | _ => None
  end.

(** ** The rasterizer: [process_data.get_image_array] *)

(** [a[:, :, 0:1]] for a three-dimensional array, given as its rows of
    pixels, a pixel being the list of its channels. *)
Definition channel_0_1 {A : Type} (a : list (list (list A))) : list (list (list A)) :=
  (fun row : list (list A) => (fun px : list A => py_slice px 0 1) <$> row) <$> a.

(** The body of [get_image_array].  [render data] stands for the lines that
    plot [data], save the figure as PNG into the buffer and read it back:
    it is [np.array(Image.open(buf))], an array of bytes of shape (height,
    width, channels), or the exception these lines raise. *)
Definition get_image_array {elt : Type}
    (render : list elt -> result (list (list (list Byte.byte))))
    (data : list elt) : result (list (list (list Byte.byte))) :=
  img ← render data; Ok (channel_0_1 img).

(** ** Concrete inputs *)

(** The two grouping tables of the notebook. *)
Definition supergroups_exc_n : gmap string Z :=
  list_to_map
    [("A", 0); ("a", 0); ("J", 0); ("S", 0); ("e", 0); ("j", 0); ("n", 0);
     ("V", 1); ("r", 1); ("E", 1);
     ("F", 2); ("f", 2);
     ("Q", 3); ("?", 3)].

Definition supergroups_inc_n : gmap string Z := {[ "N" := 4 ]}.

(** The samples [0, 1, ..., n - 1]. *)
Definition ramp (n : nat) : list Z := Z.of_nat <$> seq 0 n.

(** The array of shape (n, 1) whose n rows hold the items of [l], one each,
    the shape in which [load_data] returns a signal of one channel: its one
    column is [l]. *)
Definition rows {A : Type} (l : list A) : list (list A) := [l].

(** The floats [454.73] (the mean beat distance of record 100), [26.0] (which
    gives [frame = 10]) and [8.0] (which gives [frame = 3]). *)
Definition mean_454_73 : spec_float := S754_finite false 7999694759977288 (-44).
Definition mean_26 : spec_float := S754_finite false 7318349394477056 (-48).
Definition mean_8 : spec_float := S754_finite false 4503599627370496 (-49).

(** The float [3e19], whose frame [11790000000000000000] is above
    [2 ^ 63 - 1], and the float [7.633587786259541], the one nearest to
    [6 / 0.786]. *)
Definition mean_3e19 : spec_float := S754_finite false 7324218750000000 12.
Definition mean_7_63 : spec_float := S754_finite false 8594655777424610 (-50).

(** Annotation objects: one normal beat; normal beats around a rhythm change
    ['+'], which no table has; beats next to both ends of a short signal, and
    beyond them; four and five beats of a record. *)
Definition one_normal : Annotation :=
  {| sample := [500]; symbol := ["N"] |}.
Definition around_rhythm_change : Annotation :=
  {| sample := [300; 500; 700]; symbol := ["N"; "+"; "N"] |}.
Definition near_edges : Annotation :=
  {| sample := [1; 8]; symbol := ["N"; "N"] |}.
Definition anywhere : Annotation :=
  {| sample := [1; 5; 9; 40; -3]; symbol := ["N"; "N"; "N"; "N"; "N"] |}.
Definition four_ectopic : Annotation :=
  {| sample := [100; 300; 500; 700]; symbol := ["A"; "V"; "F"; "Q"] |}.
Definition five_normal : Annotation :=
  {| sample := [100; 300; 500; 700; 900]; symbol := ["N"; "N"; "N"; "N"; "N"] |}.

(** The state in which the segmenter returns for [around_rhythm_change] over
    [ramp 1000] with [frame = 10]. *)
Definition around_rhythm_change_final : seg_state Z :=
  {| arg_signal := rows (ramp 1000);
     arg_annotations := around_rhythm_change;
     arg_classes := supergroups_inc_n;
     signal_images := [py_slice (ramp 1000) 290 310; py_slice (ramp 1000) 690 710];
     labels := [4; 4] |}.

(** A loader that knows one record, "100", with the given signal and
    annotations, and none other. *)
Definition load_one (signal : list (list Z)) (annotations : Annotation)
    (record_name : string) : result (list (list Z) * unit * Annotation) :=
  if String.eqb record_name "100" then Ok (signal, (), annotations)
  else Raise (ExternalError "wfdb.rdsamp").

(** A heart-rate estimate that does not depend on the signal. *)
Definition constant_rate (mean : spec_float) (signal : list (list Z)) (flds : unit)
  : result spec_float := Ok mean.

(** A rasterizer call that returns for every window; the sample count of the
    window stands for its image. *)
Definition count_samples (beat : list Z) : result nat := Ok (length beat).


(** A decoded image of one row and two pixels with four channels each, and
    a renderer that returns it for every window. *)
Definition two_pixels : list (list (list Byte.byte)) :=
  [[[Byte.xff; Byte.xff; Byte.xff; Byte.xff]; [Byte.x1f; Byte.x77; Byte.xb4; Byte.xff]]].
Definition render_two_pixels (data : list Z) : result (list (list (list Byte.byte))) :=
  Ok two_pixels.

(** * Properties *)

(** ** Binary64 arithmetic: scaling and halving do not overflow *)

(** [SFmul] and [SFdiv] round the exact result through [binary_round_aux].
    The lemmas below follow the mantissa and the exponent through its two
    shifts and show that a value below the largest binary64 number is never
    rounded to an infinity. *)
Module Binary64.

Lemma digits2_pos_upper (p : positive) : Zpos p < 2 ^ Zpos (digits2_pos p).
Proof.
  induction p as [p IH | p IH |]; simpl digits2_pos.
  - rewrite Pos2Z.inj_succ, Z.pow_succ_r by lia. lia.
  - rewrite Pos2Z.inj_succ, Z.pow_succ_r by lia. lia.
  - reflexivity.
Qed.

Lemma digits2_pos_lower (p : positive) : 2 ^ (Zpos (digits2_pos p) - 1) <= Zpos p.
Proof.
  induction p as [p IH | p IH |]; simpl digits2_pos.
  - rewrite Pos2Z.inj_succ.
    replace (Z.succ (Zpos (digits2_pos p)) - 1) with (Z.succ (Zpos (digits2_pos p) - 1)) by lia.
    rewrite Z.pow_succ_r by lia. lia.
  - rewrite Pos2Z.inj_succ.
    replace (Z.succ (Zpos (digits2_pos p)) - 1) with (Z.succ (Zpos (digits2_pos p) - 1)) by lia.
    rewrite Z.pow_succ_r by lia. lia.
  - simpl. lia.
Qed.

Lemma Zdigits2_nonneg (m : Z) : 0 <= Zdigits2 m.
Proof. destruct m; simpl; lia. Qed.

Lemma Zdigits2_upper (m : Z) : 0 <= m -> m < 2 ^ Zdigits2 m.
Proof.
  destruct m as [| p | p]; intros H; simpl; [lia | apply digits2_pos_upper | lia].
Qed.

Lemma Zdigits2_le (m k : Z) : 0 <= m -> 0 <= k -> m < 2 ^ k -> Zdigits2 m <= k.
Proof.
  destruct m as [| p | p]; intros Hm Hk Hlt; simpl; [lia | | lia].
  pose proof (digits2_pos_lower p) as Hlo.
  assert (Hpow : 2 ^ (Zpos (digits2_pos p) - 1) < 2 ^ k) by lia.
  apply Z.pow_lt_mono_r_iff in Hpow; lia.
Qed.

Lemma shr_1_m (mrs : shr_record) :
  0 <= shr_m mrs -> shr_m (shr_1 mrs) = shr_m mrs / 2.
Proof.
  destruct mrs as [m r s]; cbn [shr_m]. intros Hm.
  destruct m as [| [p | p |] | p]; cbn [shr_1 shr_m]; try lia; try reflexivity.
  - apply Z.div_unique with (r := 1); lia.
  - apply Z.div_unique with (r := 0); lia.
Qed.

Lemma iter_shr_1_m (p : positive) : forall mrs : shr_record,
  0 <= shr_m mrs -> shr_m (SpecFloat.iter_pos shr_1 p mrs) = shr_m mrs / 2 ^ Zpos p.
Proof.
  induction p as [p IH | p IH |]; intros mrs Hm; cbn [SpecFloat.iter_pos].
  - assert (H1 : 0 <= shr_m (shr_1 mrs)) by (rewrite shr_1_m by done; apply Z.div_pos; lia).
    assert (H2 : 0 <= shr_m (SpecFloat.iter_pos shr_1 p (shr_1 mrs))).
    { rewrite IH by done. apply Z.div_pos; [done | apply Z.pow_pos_nonneg; lia]. }
    rewrite IH, IH, shr_1_m by done.
    rewrite !Z.div_div by (try apply Z.pow_pos_nonneg; lia).
    f_equal. replace (Zpos p~1) with (Zpos p + Zpos p + 1) by lia.
    rewrite !Z.pow_add_r by lia. change (2 ^ 1) with 2. lia.
  - assert (H2 : 0 <= shr_m (SpecFloat.iter_pos shr_1 p mrs)).
    { rewrite IH by done. apply Z.div_pos; [done | apply Z.pow_pos_nonneg; lia]. }
    rewrite IH, IH by done.
    rewrite !Z.div_div by (try apply Z.pow_pos_nonneg; lia).
    f_equal. replace (Zpos p~0) with (Zpos p + Zpos p) by lia.
    rewrite Z.pow_add_r by lia. lia.
  - rewrite shr_1_m by done. reflexivity.
Qed.

Lemma fexp_binary64 (e : Z) : fexp prec emax e = Z.max (e - 53) (-1074).
Proof. reflexivity. Qed.

Lemma shr_record_of_loc_m (m : Z) (l : location) : shr_m (shr_record_of_loc m l) = m.
Proof. destruct l as [| []]; reflexivity. Qed.

Lemma shr_fexp_spec (m e : Z) (l : location) :
  0 <= m ->
  exists mrs n,
    shr_fexp prec emax m e l = (mrs, e + n) /\
    0 <= n /\
    e + n = Z.max e (Z.max (Zdigits2 m + e - 53) (-1074)) /\
    shr_m mrs = m / 2 ^ n.
Proof.
  intros Hm. unfold shr_fexp, shr. rewrite fexp_binary64.
  destruct (Z.max (Zdigits2 m + e - 53) (-1074) - e) as [| p | p] eqn:Hn.
  - exists (shr_record_of_loc m l), 0. rewrite Z.add_0_r, shr_record_of_loc_m, Z.div_1_r.
    repeat split; lia.
  - exists (SpecFloat.iter_pos shr_1 p (shr_record_of_loc m l)), (Zpos p).
    rewrite iter_shr_1_m, shr_record_of_loc_m by (rewrite shr_record_of_loc_m; done).
    repeat split; lia.
  - exists (shr_record_of_loc m l), 0. rewrite Z.add_0_r, shr_record_of_loc_m, Z.div_1_r.
    repeat split; lia.
Qed.

Lemma round_nearest_even_bounds (m : Z) (l : location) :
  m <= round_nearest_even m l <= m + 1.
Proof.
  destruct l as [| []]; simpl; try lia. destruct (Z.even m); lia.
Qed.

(** Rounding a non-negative integer mantissa whose value is below the largest
    binary64 number yields zero or a finite number, never an infinity. *)
Lemma binary_round_aux_finite (s : bool) (m e : Z) (l : location) :
  0 <= m -> e <= 971 -> m < (2 ^ 53 - 1) * 2 ^ (971 - e) ->
  match binary_round_aux prec emax s m e l with
  | S754_zero s' => s' = s
  | S754_finite s' m' e' => s' = s /\ Zpos m' < 2 ^ 53 /\ e' <= 971
  | _ => False
  end.
Proof.
  intros Hm He Hlt. unfold binary_round_aux.
  destruct (shr_fexp_spec m e l Hm) as (mrs1 & n1 & -> & Hn1 & He1 & Hm1).
  set (m1 := round_nearest_even (shr_m mrs1) (loc_of_shr_record mrs1)).
  pose proof (round_nearest_even_bounds (shr_m mrs1) (loc_of_shr_record mrs1)) as Hr.
  fold m1 in Hr.
  assert (Hpos : 0 < 2 ^ n1) by (apply Z.pow_pos_nonneg; lia).
  assert (Hpos' : 0 < 2 ^ (971 - e)) by (apply Z.pow_pos_nonneg; lia).
  assert (Hq0 : 0 <= shr_m mrs1) by (rewrite Hm1; apply Z.div_pos; lia).
  pose proof (Zdigits2_upper m Hm) as Hd.
  pose proof (Zdigits2_nonneg m) as Hd0.
  (* the shifted mantissa has at most 53 digits *)
  assert (Hq53 : shr_m mrs1 < 2 ^ 53).
  { rewrite Hm1. apply Z.div_lt_upper_bound; [done |].
    rewrite <- Z.pow_add_r by lia.
    eapply Z.lt_le_trans; [exact Hd |]. apply Z.pow_le_mono_r; lia. }
  (* the exponent after the first shift is within range *)
  assert (Hd1024 : Zdigits2 m + e <= 1024).
  { assert (Zdigits2 m <= 1024 - e); [| lia].
    apply Zdigits2_le; [done | lia |].
    replace (1024 - e) with (53 + (971 - e)) by lia. rewrite Z.pow_add_r by lia. nia. }
  assert (He971 : e + n1 <= 971) by lia.
  assert (Hm1' : 0 <= m1) by lia.
  destruct (shr_fexp_spec m1 (e + n1) loc_Exact Hm1') as (mrs2 & n2 & -> & Hn2 & He2 & Hm2).
  assert (Hpos2 : 0 < 2 ^ n2) by (apply Z.pow_pos_nonneg; lia).
  assert (Hd54 : Zdigits2 m1 <= 54) by (apply Zdigits2_le; lia).
  (* the second shift is by at most one place, and by none at the top *)
  assert (Hfin : e + n1 + n2 <= 971 /\ shr_m mrs2 < 2 ^ 53).
  { destruct (Z.eq_dec m1 (2 ^ 53)) as [Heq | Hne].
    - assert (Hn1e : n1 <> 971 - e).
      { intros ->. assert (m / 2 ^ (971 - e) < 2 ^ 53 - 1); [| lia].
        apply Z.div_lt_upper_bound; lia. }
      assert (Hd' : Zdigits2 m1 = 54) by (rewrite Heq; reflexivity).
      assert (n2 = 1) by lia. subst n2.
      split; [lia |]. rewrite Hm2, Heq. reflexivity.
    - assert (Hlt53 : m1 < 2 ^ 53) by lia.
      assert (Zdigits2 m1 <= 53) by (apply Zdigits2_le; lia).
      assert (n2 = 0) by lia. subst n2.
      split; [lia |]. rewrite Hm2, Z.div_1_r. done. }
  destruct Hfin as [Hefin Hmfin].
  assert (Hq2 : 0 <= shr_m mrs2) by (rewrite Hm2; apply Z.div_pos; lia).
  destruct (shr_m mrs2) as [| p | p] eqn:Hp; [done | | lia].
  replace (e + n1 + n2 <=? emax - prec) with true; [done |].
  symmetry. apply Z.leb_le. change (emax - prec) with 971. lia.
Qed.

Lemma bounded_inv (m : positive) (e : Z) :
  bounded prec emax m e = true -> Zpos m < 2 ^ 53 /\ e <= 971.
Proof.
  unfold bounded, canonical_mantissa. rewrite fexp_binary64.
  intros [Hc He]%andb_prop. apply Z.eqb_eq in Hc. apply Z.leb_le in He.
  change (emax - prec) with 971 in He. split; [| done].
  pose proof (digits2_pos_upper m) as Hu.
  eapply Z.lt_le_trans; [exact Hu |]. apply Z.pow_le_mono_r; lia.
Qed.

Lemma positive_finite_nonneg (x : spec_float) :
  positive_finite x = true -> nonneg_finite x.
Proof.
  destruct x as [| | | [] m e]; simpl; try done. intros H%bounded_inv. done.
Qed.

Lemma fmul_scale_factor_nonneg (x : spec_float) :
  nonneg_finite x -> nonneg_finite (fmul x scale_factor).
Proof.
  destruct x as [s | | | s m e]; simpl; try done.
  - intros ->. reflexivity.
  - intros (-> & Hm & He). unfold nonneg_finite.
    apply binary_round_aux_finite; [lia | lia |].
    replace (971 - (e + -53)) with (53 + (971 - e)) by lia.
    rewrite Z.pow_add_r by lia.
    assert (0 < 2 ^ (971 - e)) by (apply Z.pow_pos_nonneg; lia).
    rewrite Pos2Z.inj_mul.
    assert (Zpos m * 7079658614226420 < (2 ^ 53 - 1) * 2 ^ 53) by lia.
    nia.
Qed.

Lemma fdiv_two_nonneg (x : spec_float) :
  nonneg_finite x -> nonneg_finite (fdiv x float_of_two).
Proof.
  destruct x as [s | | | s m e]; simpl; try done.
  - intros ->. reflexivity.
  - intros (-> & Hm & He). unfold nonneg_finite, SFdiv_core_binary.
    rewrite fexp_binary64.
    change (Zdigits2 4503599627370496) with 53.
    set (d := Zdigits2 (Zpos m)).
    assert (Hd : 0 <= d <= 53).
    { split; [apply Zdigits2_nonneg | apply Zdigits2_le; lia]. }
    set (e' := Z.min (Z.max (d + e - (53 + -51) - 53) (-1074)) (e - -51)).
    set (m' := match e - -51 - e' with
               | 0 => Zpos m
               | Zpos _ => Z.shiftl (Zpos m) (e - -51 - e')
               | Zneg _ => 0
               end).
    assert (Hs : 0 <= e - -51 - e') by lia.
    assert (Hm' : m' = Zpos m * 2 ^ (e - -51 - e')).
    { unfold m'. destruct (e - -51 - e') as [| p | p] eqn:Hse.
      - simpl. lia.
      - rewrite Z.shiftl_mul_pow2 by lia. done.
      - lia. }
    destruct (Z.div_eucl m' 4503599627370496) as [q r] eqn:Hqr.
    assert (Hq : q = m' / 2 ^ 52).
    { change (2 ^ 52) with 4503599627370496. unfold Z.div. rewrite Hqr. done. }
    assert (Hp : 0 < 2 ^ (e - -51 - e')) by (apply Z.pow_pos_nonneg; lia).
    apply binary_round_aux_finite.
    + rewrite Hq. apply Z.div_pos; lia.
    + lia.
    + rewrite Hq. apply Z.div_lt_upper_bound; [lia |].
      rewrite Hm'.
      assert (Hle : 2 ^ (e - -51 - e') <= 2 ^ ((971 - e') + 51)) by (apply Z.pow_le_mono_r; lia).
      rewrite Z.pow_add_r in Hle by lia.
      assert (0 < 2 ^ (971 - e')) by (apply Z.pow_pos_nonneg; lia).
      change (2 ^ 51) with 2251799813685248 in Hle. change (2 ^ 52) with 4503599627370496.
      change (2 ^ 53) with 9007199254740992 in *.
      nia.
Qed.

Lemma scaled_half_nonneg (mean_rate : spec_float) :
  positive_finite mean_rate = true -> nonneg_finite (scaled_half mean_rate).
Proof.
  intros H. apply fdiv_two_nonneg, fmul_scale_factor_nonneg, positive_finite_nonneg, H.
Qed.

End Binary64.

(** ** The frame *)

Lemma py_int_floor_nonneg (x : spec_float) :
  nonneg_finite x -> exists f, py_int x = Ok f /\ py_floor x = Ok f /\ 0 <= f.
Proof.
  destruct x as [s | | | s m e]; simpl; try done.
  - intros _. exists 0. done.
  - intros (-> & _ & _). exists (Z.shiftl (Zpos m) e). simpl.
    split; [done |]. split; [done |]. apply Z.shiftl_nonneg. lia.
Qed.

Lemma frame_of_positive (mean_rate : spec_float) :
  positive_finite mean_rate = true ->
  exists frame,
    frame_of mean_rate = Ok frame /\
    py_floor (scaled_half mean_rate) = Ok frame /\
    0 <= frame.
Proof.
  intros H. apply py_int_floor_nonneg, Binary64.scaled_half_nonneg, H.
Qed.

(** ** 64-bit integers *)

Lemma fits_int64_spec (n : Z) : fits_int64 n = true <-> - 2 ^ 63 <= n < 2 ^ 63.
Proof. unfold fits_int64. rewrite andb_true_iff, Z.leb_le, Z.ltb_lt. done. Qed.

Lemma int64_wrap_range (z : Z) : - 2 ^ 63 <= int64_wrap z < 2 ^ 63.
Proof.
  unfold int64_wrap. pose proof (Z.mod_pos_bound (z + 2 ^ 63) (2 ^ 64) ltac:(lia)). lia.
Qed.

(** Wrapping changes a number by a multiple of [2 ^ 64]. *)
Lemma int64_wrap_mod (z : Z) : exists k, int64_wrap z = z + k * 2 ^ 64.
Proof.
  exists (- ((z + 2 ^ 63) / 2 ^ 64)). unfold int64_wrap.
  pose proof (Z.div_mod (z + 2 ^ 63) (2 ^ 64) ltac:(lia)). lia.
Qed.

Lemma int64_wrap_fits (z : Z) : fits_int64 z = true -> int64_wrap z = z.
Proof.
  intros H%fits_int64_spec. unfold int64_wrap.
  rewrite Z.mod_small by lia. lia.
Qed.

Lemma int64_sub_fits (pos frame : Z) :
  fits_int64 frame = true -> int64_sub pos frame = Ok (int64_wrap (pos - frame)).
Proof. intros H. unfold int64_sub, int64_of_int. by rewrite H. Qed.

Lemma int64_add_fits (pos frame : Z) :
  fits_int64 frame = true -> int64_add pos frame = Ok (int64_wrap (pos + frame)).
Proof. intros H. unfold int64_add, int64_of_int. by rewrite H. Qed.

Lemma int64_sub_overflow (pos frame : Z) :
  fits_int64 frame = false -> int64_sub pos frame = Raise OverflowError.
Proof. intros H. unfold int64_sub, int64_of_int. by rewrite H. Qed.

(** ** Slices *)

Lemma py_slice_contiguous {A : Type} (l : list A) (a b : Z) :
  contiguous_in (py_slice l a b) l.
Proof.
  unfold py_slice, contiguous_in.
  set (i := Z.to_nat (adjust_index (Z.of_nat (length l)) a)).
  set (n := Z.to_nat (adjust_index (Z.of_nat (length l)) b - adjust_index (Z.of_nat (length l)) a)).
  exists (take i l), (drop n (drop i l)).
  by rewrite take_drop, take_drop.
Qed.

Lemma adjust_index_range (len i : Z) : 0 <= len -> 0 <= adjust_index len i <= len.
Proof. unfold adjust_index. destruct (Z.ltb_spec i 0); lia. Qed.

Lemma py_slice_length {A : Type} (l : list A) (a b : Z) :
  Z.of_nat (length (py_slice l a b))
  = Z.max 0 (adjust_index (Z.of_nat (length l)) b - adjust_index (Z.of_nat (length l)) a).
Proof.
  unfold py_slice. rewrite length_take, length_drop.
  pose proof (adjust_index_range (Z.of_nat (length l)) a ltac:(lia)).
  pose proof (adjust_index_range (Z.of_nat (length l)) b ltac:(lia)).
  lia.
Qed.

(** Where neither bound overflows, the window is the slice with the exact
    bounds. *)
Lemma window_exact {A : Type} (signal1 : list A) (frame pos : Z) :
  fits_int64 (pos - frame) = true -> fits_int64 (pos + frame) = true ->
  window signal1 frame pos = py_slice signal1 (pos - frame) (pos + frame).
Proof. intros Ha Hb. unfold window. by rewrite !int64_wrap_fits. Qed.

(** The distance between the two bounds of a window is [2 * frame], or
    [2 * frame - 2 ^ 64] when one of them has wrapped around; an array is too
    short for the second case to give a longer window. *)
Lemma window_length {A : Type} (signal1 : list A) (frame pos : Z) :
  0 <= frame < 2 ^ 63 -> Z.of_nat (length signal1) < 2 ^ 63 ->
  Z.of_nat (length (window signal1 frame pos)) <= 2 * frame.
Proof.
  intros Hf Hlen. unfold window. rewrite py_slice_length.
  destruct (int64_wrap_mod (pos - frame)) as [ka Ha].
  destruct (int64_wrap_mod (pos + frame)) as [kb Hb].
  pose proof (int64_wrap_range (pos - frame)) as Hra.
  pose proof (int64_wrap_range (pos + frame)) as Hrb.
  set (a := int64_wrap (pos - frame)) in *. set (b := int64_wrap (pos + frame)) in *.
  assert (Hk : kb = ka \/ kb = ka - 1) by lia.
  unfold adjust_index.
  destruct (Z.ltb_spec a 0), (Z.ltb_spec b 0), Hk; lia.
Qed.

(** With a start that is not negative, the slice is the clipped window. *)
Lemma window_clipped {A : Type} (signal1 : list A) (frame pos : Z) :
  0 <= frame <= pos -> pos + frame < 2 ^ 63 ->
  window signal1 frame pos = clipped_window signal1 frame pos.
Proof.
  intros Hf Hfit.
  rewrite window_exact by (apply fits_int64_spec; lia).
  unfold clipped_window, py_slice, adjust_index.
  destruct (Z.ltb_spec (pos - frame) 0), (Z.ltb_spec (pos + frame) 0); try lia.
  destruct (Z.le_gt_cases (pos - frame) (Z.of_nat (length signal1))) as [Hle | Hgt].
  - rewrite (Z.max_l (pos - frame) 0), (Z.min_l (pos - frame)) by lia. done.
  - rewrite !drop_ge by lia. by rewrite !take_nil.
Qed.

(** With a negative start, the start counts from the end of the signal. *)
Lemma window_wrapped {A : Type} (signal1 : list A) (frame pos : Z) :
  0 <= pos < frame -> pos + frame < 2 ^ 63 ->
  let len := Z.of_nat (length signal1) in
  let a := Z.max (len + pos - frame) 0 in
  let b := Z.min (pos + frame) len in
  window signal1 frame pos = take (Z.to_nat (b - a)) (drop (Z.to_nat a) signal1).
Proof.
  intros Hf Hfit. cbv zeta.
  rewrite window_exact by (apply fits_int64_spec; lia).
  unfold py_slice, adjust_index.
  destruct (Z.ltb_spec (pos - frame) 0), (Z.ltb_spec (pos + frame) 0); try lia.
  replace (pos - frame + Z.of_nat (length signal1))
    with (Z.of_nat (length signal1) + pos - frame) by lia.
  done.
Qed.

Lemma window_wrapped_empty {A : Type} (signal1 : list A) (frame pos : Z) :
  0 <= pos < frame -> pos + frame < 2 ^ 63 -> 2 * frame <= Z.of_nat (length signal1) ->
  window signal1 frame pos = [].
Proof.
  intros Hf Hfit Hlen. rewrite window_wrapped by done. cbv zeta.
  replace (Z.to_nat _) with 0%nat by lia. done.
Qed.

(** ** The copy of column 0 *)

Lemma column0_inv {A : Type} (signal : list (list A)) (signal1 : list A) :
  column0 signal = Ok signal1 ->
  signal !! 0%nat = Some signal1 /\ Z.of_nat (length signal1) < 2 ^ 63.
Proof.
  unfold column0, getitem, np_array.
  destruct (signal !! 0%nat) as [column |]; [| done]. simpl.
  destruct (Z.ltb_spec (Z.of_nat (length column)) (2 ^ 63)); [| done].
  by intros [= <-].
Qed.

Lemma column0_cons {A : Type} (column : list A) (others : list (list A)) :
  Z.of_nat (length column) < 2 ^ 63 -> column0 (column :: others) = Ok column.
Proof.
  intros H. unfold column0, getitem, np_array. simpl.
  by destruct (Z.ltb_spec (Z.of_nat (length column)) (2 ^ 63)); [| lia].
Qed.

Lemma column0_nil {A : Type} : column0 (@nil (list A)) = Raise IndexError.
Proof. reflexivity. Qed.

(** ** The loop of the segmenter *)

Section SegmenterFacts.
Context {elt : Type}.
Implicit Types (st : seg_state elt) (classes : gmap string Z).

Lemma seg_extend_nil st : seg_extend st [] [] = st.
Proof. destruct st. unfold seg_extend. simpl. by rewrite !app_nil_r. Qed.

Lemma seg_extend_extend st ws1 cs1 ws2 cs2 :
  seg_extend (seg_extend st ws1 cs1) ws2 cs2 = seg_extend st (ws1 ++ ws2) (cs1 ++ cs2).
Proof. unfold seg_extend. simpl. by rewrite !app_assoc. Qed.

Lemma dict_contains_true classes sym :
  dict_contains classes sym = true <-> is_Some (classes !! sym).
Proof. unfold dict_contains. apply bool_decide_eq_true. Qed.

(** One turn on a symbol of the table appends a window and its class, when
    the frame fits in 64 bits. *)
Lemma seg_body_key frame (signal1 : list elt) st i pos sym c :
  fits_int64 frame = true ->
  symbol (arg_annotations st) !! i = Some sym ->
  arg_classes st !! sym = Some c ->
  seg_body frame signal1 st (i, pos)
  = Ok (seg_extend st [window signal1 frame pos] [c]).
Proof.
  intros Hfit Hsym Hc. unfold seg_body, getitem. rewrite Hsym. simpl.
  replace (dict_contains (arg_classes st) sym) with true
    by (symmetry; apply dict_contains_true; eauto).
  rewrite (int64_sub_fits _ _ Hfit), (int64_add_fits _ _ Hfit).
  simpl. rewrite Hsym. simpl. unfold dict_getitem. rewrite Hc. done.
Qed.

(** One turn on a symbol of the table raises when the frame does not fit. *)
Lemma seg_body_overflow frame (signal1 : list elt) st i pos sym c :
  fits_int64 frame = false ->
  symbol (arg_annotations st) !! i = Some sym ->
  arg_classes st !! sym = Some c ->
  seg_body frame signal1 st (i, pos) = Raise OverflowError.
Proof.
  intros Hfit Hsym Hc. unfold seg_body, getitem. rewrite Hsym. simpl.
  replace (dict_contains (arg_classes st) sym) with true
    by (symmetry; apply dict_contains_true; eauto).
  by rewrite (int64_sub_overflow _ _ Hfit).
Qed.

(** One turn on any other symbol changes nothing. *)
Lemma seg_body_skip frame (signal1 : list elt) st i pos sym :
  symbol (arg_annotations st) !! i = Some sym ->
  arg_classes st !! sym = None ->
  seg_body frame signal1 st (i, pos) = Ok st.
Proof.
  intros Hsym Hc. unfold seg_body, getitem. rewrite Hsym. simpl.
  replace (dict_contains (arg_classes st) sym) with false; [done |].
  symmetry. apply bool_decide_eq_false. rewrite Hc. by intros [? ?].
Qed.

(** One turn past the end of [symbol] raises. *)
Lemma seg_body_index_error frame (signal1 : list elt) st i pos :
  symbol (arg_annotations st) !! i = None ->
  seg_body frame signal1 st (i, pos) = Raise IndexError.
Proof. intros Hsym. unfold seg_body, getitem. by rewrite Hsym. Qed.

(** No turn of the loop touches the three arguments. *)
Lemma seg_body_keeps_arguments frame (signal1 : list elt) st ip st' :
  seg_body frame signal1 st ip = Ok st' ->
  arg_signal st' = arg_signal st /\
  arg_annotations st' = arg_annotations st /\
  arg_classes st' = arg_classes st.
Proof.
  destruct ip as [i pos].
  destruct (symbol (arg_annotations st) !! i) as [sym |] eqn:Hsym;
    [| by rewrite (seg_body_index_error _ _ _ _ _ Hsym)].
  destruct (arg_classes st !! sym) as [c |] eqn:Hc.
  - destruct (fits_int64 frame) eqn:Hfit.
    + rewrite (seg_body_key _ _ _ _ _ _ _ Hfit Hsym Hc). by intros [= <-].
    + by rewrite (seg_body_overflow _ _ _ _ _ _ _ Hfit Hsym Hc).
  - rewrite (seg_body_skip _ _ _ _ _ _ Hsym Hc). by intros [= <-].
Qed.

Lemma kept_cons_key classes pos sym rest c :
  classes !! sym = Some c ->
  kept classes ((pos, sym) :: rest) = (pos, sym) :: kept classes rest.
Proof. intros H. unfold kept. rewrite filter_cons_True; [done | simpl; eauto]. Qed.

Lemma kept_cons_skip classes pos sym rest :
  classes !! sym = None ->
  kept classes ((pos, sym) :: rest) = kept classes rest.
Proof.
  intros H. unfold kept. rewrite filter_cons_False; [done |].
  simpl. rewrite H. by intros [? ?].
Qed.

(** The loop, started at index [i]: as long as [symbol] has an entry for
    every position, and the frame fits in 64 bits or no symbol is a key, it
    returns the state extended by the kept windows and their classes. *)
Lemma seg_loop_ok frame (signal1 : list elt) (samples : list Z) : forall i st,
  (length samples <= length (drop i (symbol (arg_annotations st))))%nat ->
  let pairs := zip samples (drop i (symbol (arg_annotations st))) in
  fits_int64 frame = true \/ kept (arg_classes st) pairs = [] ->
  for_each (seg_body frame signal1) (enumerate_from i samples) st
  = Ok (seg_extend st (windows_of signal1 frame (arg_classes st) pairs)
          (labels_of (arg_classes st) pairs)).
Proof.
  induction samples as [| pos samples IH]; intros i st Hlen; cbv zeta.
  - intros _. simpl. by rewrite seg_extend_nil.
  - destruct (drop i (symbol (arg_annotations st))) as [| sym syms] eqn:Hdrop;
      [simpl in Hlen; lia |].
    assert (Hsym : symbol (arg_annotations st) !! i = Some sym).
    { rewrite <- (Nat.add_0_r i), <- lookup_drop, Hdrop. done. }
    assert (Hrest : drop (S i) (symbol (arg_annotations st)) = syms).
    { replace (S i) with (i + 1)%nat by lia. rewrite <- drop_drop, Hdrop. done. }
    simpl in Hlen. cbn [enumerate_from for_each zip zip_with].
    destruct (arg_classes st !! sym) as [c |] eqn:Hc.
    + rewrite (kept_cons_key _ _ _ _ _ Hc). intros [Hfit | Hnone]; [| done].
      rewrite (seg_body_key _ _ _ _ _ _ _ Hfit Hsym Hc). simpl.
      rewrite IH by (simpl; rewrite ?Hrest; (lia || by left)). simpl. rewrite Hrest.
      rewrite seg_extend_extend. unfold windows_of, labels_of.
      rewrite (kept_cons_key _ _ _ _ _ Hc). simpl. by rewrite Hc.
    + rewrite (kept_cons_skip _ _ _ _ Hc). intros Huse.
      rewrite (seg_body_skip _ _ _ _ _ _ Hsym Hc). simpl.
      rewrite IH by (rewrite ?Hrest; (lia || done)). rewrite Hrest.
      unfold windows_of, labels_of.
      rewrite (kept_cons_skip _ _ _ _ Hc). simpl. by rewrite Hc.
Qed.

(** With a frame that does not fit, the loop raises at the first symbol that
    is a key. *)
Lemma seg_loop_overflow frame (signal1 : list elt) (samples : list Z) : forall i st,
  fits_int64 frame = false ->
  kept (arg_classes st) (zip samples (drop i (symbol (arg_annotations st)))) <> [] ->
  for_each (seg_body frame signal1) (enumerate_from i samples) st = Raise OverflowError.
Proof.
  induction samples as [| pos samples IH]; intros i st Hfit Hkept; [done |].
  destruct (drop i (symbol (arg_annotations st))) as [| sym syms] eqn:Hdrop; [done |].
  assert (Hsym : symbol (arg_annotations st) !! i = Some sym).
  { rewrite <- (Nat.add_0_r i), <- lookup_drop, Hdrop. done. }
  assert (Hrest : drop (S i) (symbol (arg_annotations st)) = syms).
  { replace (S i) with (i + 1)%nat by lia. rewrite <- drop_drop, Hdrop. done. }
  cbn [enumerate_from for_each zip zip_with] in *.
  destruct (arg_classes st !! sym) as [c |] eqn:Hc.
  - by rewrite (seg_body_overflow _ _ _ _ _ _ _ Hfit Hsym Hc).
  - rewrite (kept_cons_skip _ _ _ _ Hc) in Hkept.
    rewrite (seg_body_skip _ _ _ _ _ _ Hsym Hc). simpl.
    apply IH; rewrite ?Hrest; done.
Qed.

(** With fewer symbols than positions, and a frame that fits in 64 bits or
    no symbol that is a key, the loop raises [IndexError] at the first
    position without a symbol. *)
Lemma seg_loop_index_error frame (signal1 : list elt) (samples : list Z) : forall i st,
  (length (drop i (symbol (arg_annotations st))) < length samples)%nat ->
  fits_int64 frame = true
  \/ kept (arg_classes st) (zip samples (drop i (symbol (arg_annotations st)))) = [] ->
  for_each (seg_body frame signal1) (enumerate_from i samples) st = Raise IndexError.
Proof.
  induction samples as [| pos samples IH]; intros i st Hlen Huse; [simpl in Hlen; lia |].
  cbn [enumerate_from for_each].
  destruct (drop i (symbol (arg_annotations st))) as [| sym syms] eqn:Hdrop.
  - assert (Hsym : symbol (arg_annotations st) !! i = None).
    { rewrite <- (Nat.add_0_r i), <- lookup_drop, Hdrop. done. }
    by rewrite (seg_body_index_error _ _ _ _ _ Hsym).
  - assert (Hsym : symbol (arg_annotations st) !! i = Some sym).
    { rewrite <- (Nat.add_0_r i), <- lookup_drop, Hdrop. done. }
    assert (Hrest : drop (S i) (symbol (arg_annotations st)) = syms).
    { replace (S i) with (i + 1)%nat by lia. rewrite <- drop_drop, Hdrop. done. }
    simpl in Hlen. cbn [zip zip_with] in Huse.
    destruct (arg_classes st !! sym) as [c |] eqn:Hc.
    + rewrite (kept_cons_key _ _ _ _ _ Hc) in Huse.
      destruct Huse as [Hfit | Hnone]; [| done].
      rewrite (seg_body_key _ _ _ _ _ _ _ Hfit Hsym Hc). simpl.
      apply IH; simpl; rewrite ?Hrest; [lia | by left].
    + rewrite (kept_cons_skip _ _ _ _ Hc) in Huse.
      rewrite (seg_body_skip _ _ _ _ _ _ Hsym Hc). simpl.
      apply IH; rewrite ?Hrest; [lia | done].
Qed.

(** With fewer symbols than positions the loop raises: [IndexError] at the
    first position without a symbol, unless the frame does not fit and a
    symbol before it is a key. *)
Lemma seg_loop_short frame (signal1 : list elt) (samples : list Z) : forall i st,
  (length (drop i (symbol (arg_annotations st))) < length samples)%nat ->
  exists e,
    for_each (seg_body frame signal1) (enumerate_from i samples) st = Raise e /\
    (e = IndexError \/ e = OverflowError /\ fits_int64 frame = false).
Proof.
  induction samples as [| pos samples IH]; intros i st Hlen; [simpl in Hlen; lia |].
  cbn [enumerate_from for_each].
  destruct (drop i (symbol (arg_annotations st))) as [| sym syms] eqn:Hdrop.
  - assert (Hsym : symbol (arg_annotations st) !! i = None).
    { rewrite <- (Nat.add_0_r i), <- lookup_drop, Hdrop. done. }
    rewrite (seg_body_index_error _ _ _ _ _ Hsym). exists IndexError. by split; [| left].
  - assert (Hsym : symbol (arg_annotations st) !! i = Some sym).
    { rewrite <- (Nat.add_0_r i), <- lookup_drop, Hdrop. done. }
    assert (Hrest : drop (S i) (symbol (arg_annotations st)) = syms).
    { replace (S i) with (i + 1)%nat by lia. rewrite <- drop_drop, Hdrop. done. }
    simpl in Hlen.
    destruct (arg_classes st !! sym) as [c |] eqn:Hc.
    + destruct (fits_int64 frame) eqn:Hfit.
      * rewrite (seg_body_key _ _ _ _ _ _ _ Hfit Hsym Hc). simpl.
        apply IH. simpl. rewrite Hrest. lia.
      * rewrite (seg_body_overflow _ _ _ _ _ _ _ Hfit Hsym Hc).
        exists OverflowError. by split; [| right].
    + rewrite (seg_body_skip _ _ _ _ _ _ Hsym Hc). simpl.
      apply IH. rewrite Hrest. lia.
Qed.

End SegmenterFacts.

(** ** The segmenter as a whole *)

Section SegmenterResults.
Context {elt : Type}.
Implicit Types (signal : list (list elt)) (classes : gmap string Z).
Implicit Types (annotations : Annotation) (mean_rate : spec_float).

Lemma seg_run_ok signal annotations mean_rate classes frame (signal1 : list elt) :
  frame_of mean_rate = Ok frame ->
  column0 signal = Ok signal1 ->
  (length (sample annotations) <= length (symbol annotations))%nat ->
  fits_int64 frame = true \/ kept classes (annotation_pairs annotations) = [] ->
  seg_run signal annotations mean_rate classes
  = Ok (seg_extend (seg_enter signal annotations classes)
          (windows_of signal1 frame classes (annotation_pairs annotations))
          (labels_of classes (annotation_pairs annotations))).
Proof.
  intros Hf Hc Hlen Huse. unfold seg_run. rewrite Hf. simpl. rewrite Hc. simpl.
  unfold enumerate. apply (seg_loop_ok frame signal1 (sample annotations) 0).
  - simpl. by rewrite drop_0.
  - simpl. by rewrite drop_0.
Qed.

Lemma separate_hearbeats_ok signal annotations mean_rate classes frame
    (signal1 : list elt) :
  frame_of mean_rate = Ok frame ->
  column0 signal = Ok signal1 ->
  (length (sample annotations) <= length (symbol annotations))%nat ->
  fits_int64 frame = true \/ kept classes (annotation_pairs annotations) = [] ->
  separate_hearbeats signal annotations mean_rate classes
  = Ok (windows_of signal1 frame classes (annotation_pairs annotations),
        labels_of classes (annotation_pairs annotations)).
Proof.
  intros Hf Hc Hlen Huse. unfold separate_hearbeats.
  rewrite (seg_run_ok _ _ _ _ _ _ Hf Hc Hlen Huse). done.
Qed.

Lemma seg_run_overflow signal annotations mean_rate classes frame
    (signal1 : list elt) :
  frame_of mean_rate = Ok frame ->
  column0 signal = Ok signal1 ->
  fits_int64 frame = false ->
  kept classes (annotation_pairs annotations) <> [] ->
  seg_run signal annotations mean_rate classes = Raise OverflowError.
Proof.
  intros Hf Hc Hfit Hkept. unfold seg_run. rewrite Hf. simpl. rewrite Hc. simpl.
  unfold enumerate. apply seg_loop_overflow; simpl; rewrite ?drop_0; done.
Qed.

Lemma seg_run_short signal annotations mean_rate classes frame
    (signal1 : list elt) :
  frame_of mean_rate = Ok frame ->
  column0 signal = Ok signal1 ->
  (length (symbol annotations) < length (sample annotations))%nat ->
  exists e,
    seg_run signal annotations mean_rate classes = Raise e /\
    (e = IndexError \/ e = OverflowError /\ fits_int64 frame = false).
Proof.
  intros Hf Hc Hlen. unfold seg_run. rewrite Hf. simpl. rewrite Hc. simpl.
  unfold enumerate. apply seg_loop_short. simpl. by rewrite drop_0.
Qed.

(** Whenever the run returns, [symbol] has an entry for every position, the
    frame fits in 64 bits unless no symbol is a key, and the run returns the
    closed form. *)
Lemma seg_run_returns signal annotations mean_rate classes (st : seg_state elt) :
  seg_run signal annotations mean_rate classes = Ok st ->
  exists frame (signal1 : list elt),
    frame_of mean_rate = Ok frame /\
    column0 signal = Ok signal1 /\
    (length (sample annotations) <= length (symbol annotations))%nat /\
    (fits_int64 frame = true \/ kept classes (annotation_pairs annotations) = []) /\
    st = seg_extend (seg_enter signal annotations classes)
           (windows_of signal1 frame classes (annotation_pairs annotations))
           (labels_of classes (annotation_pairs annotations)).
Proof.
  intros Hrun.
  destruct (frame_of mean_rate) as [frame | e] eqn:Hf;
    [| unfold seg_run in Hrun; rewrite Hf in Hrun; done].
  destruct (column0 signal) as [signal1 | e] eqn:Hc;
    [| unfold seg_run in Hrun; rewrite Hf in Hrun; simpl in Hrun;
       rewrite Hc in Hrun; done].
  exists frame, signal1. split; [done |]. split; [done |].
  destruct (Nat.le_gt_cases (length (sample annotations)) (length (symbol annotations)))
    as [Hlen | Hlen].
  - assert (Huse : fits_int64 frame = true
                   \/ kept classes (annotation_pairs annotations) = []).
    { destruct (fits_int64 frame) eqn:Hfit; [by left | right].
      destruct (kept classes (annotation_pairs annotations)) as [| p ps] eqn:Hkept;
        [done |].
      rewrite (seg_run_overflow _ _ _ _ _ _ Hf Hc Hfit) in Hrun; [done |].
      by rewrite Hkept. }
    rewrite (seg_run_ok _ _ _ _ _ _ Hf Hc Hlen Huse) in Hrun. by injection Hrun.
  - destruct (seg_run_short _ _ _ classes _ _ Hf Hc Hlen) as (e & He & _).
    by rewrite He in Hrun.
Qed.

(** Whenever the run returns, it returns the closed form. *)
Lemma seg_run_inv signal annotations mean_rate classes (st : seg_state elt) :
  seg_run signal annotations mean_rate classes = Ok st ->
  exists frame (signal1 : list elt),
    frame_of mean_rate = Ok frame /\
    column0 signal = Ok signal1 /\
    st = seg_extend (seg_enter signal annotations classes)
           (windows_of signal1 frame classes (annotation_pairs annotations))
           (labels_of classes (annotation_pairs annotations)).
Proof.
  intros (frame & signal1 & Hf & Hc & _ & _ & ->)%seg_run_returns.
  by exists frame, signal1.
Qed.

Lemma separate_hearbeats_returns signal annotations mean_rate classes beats cs :
  separate_hearbeats signal annotations mean_rate classes = Ok (beats, cs) ->
  exists frame (signal1 : list elt),
    frame_of mean_rate = Ok frame /\
    column0 signal = Ok signal1 /\
    (length (sample annotations) <= length (symbol annotations))%nat /\
    (fits_int64 frame = true \/ kept classes (annotation_pairs annotations) = []) /\
    beats = windows_of signal1 frame classes (annotation_pairs annotations) /\
    cs = labels_of classes (annotation_pairs annotations).
Proof.
  unfold separate_hearbeats.
  destruct (seg_run signal annotations mean_rate classes) as [st | e] eqn:Hrun; [| done].
  apply seg_run_returns in Hrun as (frame & signal1 & Hf & Hc & Hlen & Huse & ->).
  simpl. intros [= <- <-]. by exists frame, signal1.
Qed.

(** Whenever the segmenter returns, it returns the closed form. *)
Lemma separate_hearbeats_inv signal annotations mean_rate classes beats cs :
  separate_hearbeats signal annotations mean_rate classes = Ok (beats, cs) ->
  exists frame (signal1 : list elt),
    frame_of mean_rate = Ok frame /\
    column0 signal = Ok signal1 /\
    beats = windows_of signal1 frame classes (annotation_pairs annotations) /\
    cs = labels_of classes (annotation_pairs annotations).
Proof.
  intros (frame & signal1 & Hf & Hc & _ & _ & -> & ->)%separate_hearbeats_returns.
  by exists frame, signal1.
Qed.

Lemma frame_fits_int64_frame mean_rate frame :
  frame_of mean_rate = Ok frame ->
  frame_fits_int64 mean_rate = true -> fits_int64 frame = true.
Proof. intros Hf. unfold frame_fits_int64. by rewrite Hf. Qed.

Lemma labels_of_kept classes (pairs : list (Z * string)) :
  Forall2 (fun c p => classes !! p.2 = Some c) (labels_of classes pairs) (kept classes pairs).
Proof.
  induction pairs as [| [pos sym] pairs IH]; [constructor |].
  unfold labels_of. simpl. destruct (classes !! sym) as [c |] eqn:Hc.
  - rewrite (kept_cons_key _ _ _ _ _ Hc). by constructor.
  - by rewrite (kept_cons_skip _ _ _ _ Hc).
Qed.

Lemma windows_labels_length (signal1 : list elt) frame classes (pairs : list (Z * string)) :
  length (windows_of signal1 frame classes pairs) = length (labels_of classes pairs).
Proof.
  unfold windows_of. rewrite length_fmap.
  symmetry. eapply Forall2_length, labels_of_kept.
Qed.

Lemma kept_app classes (ps qs : list (Z * string)) :
  kept classes (ps ++ qs) = kept classes ps ++ kept classes qs.
Proof. unfold kept. apply filter_app. Qed.

Lemma windows_of_app (signal1 : list elt) frame classes (ps qs : list (Z * string)) :
  windows_of signal1 frame classes (ps ++ qs)
  = windows_of signal1 frame classes ps ++ windows_of signal1 frame classes qs.
Proof. unfold windows_of. by rewrite kept_app, fmap_app. Qed.

Lemma labels_of_app classes (ps qs : list (Z * string)) :
  labels_of classes (ps ++ qs) = labels_of classes ps ++ labels_of classes qs.
Proof. unfold labels_of. apply omap_app. Qed.

Lemma windows_of_skip (signal1 : list elt) frame classes pos sym
    (rest : list (Z * string)) :
  classes !! sym = None ->
  windows_of signal1 frame classes ((pos, sym) :: rest)
  = windows_of signal1 frame classes rest.
Proof. intros H. unfold windows_of. by rewrite (kept_cons_skip _ _ _ _ H). Qed.

Lemma labels_of_skip classes pos sym (rest : list (Z * string)) :
  classes !! sym = None ->
  labels_of classes ((pos, sym) :: rest) = labels_of classes rest.
Proof. intros H. unfold labels_of. simpl. by rewrite H. Qed.

End SegmenterResults.

(** ** The float constants are the literals of the source *)

Lemma scale_factor_literal : Prim2SF 0.786%float = scale_factor.
Proof. reflexivity. Qed.

Lemma float_of_two_literal : Prim2SF 2%float = float_of_two.
Proof. reflexivity. Qed.

Lemma mean_454_73_literal : Prim2SF 454.73%float = mean_454_73.
Proof. reflexivity. Qed.

Lemma mean_3e19_literal : Prim2SF 3e19%float = mean_3e19.
Proof. reflexivity. Qed.

(** The model of the scaled value is what the machine computes: the product
    and the quotient of the hardware, applied to the literals of the source. *)
Lemma scaled_half_primitive (mean_rate : float) :
  Prim2SF ((mean_rate * 0.786) / 2)%float = scaled_half (Prim2SF mean_rate).
Proof. rewrite div_spec, mul_spec. reflexivity. Qed.

(** For a number that is not negative, [int] gives the floor. *)
Lemma py_int_is_floor (x : spec_float) (n : Z) :
  nonneg_finite x -> py_int x = Ok n -> is_floor x n.
Proof.
  destruct x as [s | | | s m e]; simpl; try done.
  - intros _ [= <-]. done.
  - intros (-> & _ & _) [= <-]. simpl cond_Zopp.
    destruct (Z.le_gt_cases 0 e) as [He | He].
    + rewrite Z.shiftl_mul_pow2 by done.
      rewrite (Z.max_l 0 (- e)), (Z.max_r 0 e) by lia. simpl (2 ^ 0). lia.
    + replace (Z.shiftl (Zpos m) e) with (Zpos m / 2 ^ (- e))
        by (rewrite <- (Z.opp_involutive e) at 2;
            by rewrite Z.shiftl_opp_r, Z.shiftr_div_pow2 by lia).
      rewrite (Z.max_r 0 (- e)), (Z.max_l 0 e) by lia. simpl (2 ^ 0).
      assert (Hp : 0 < 2 ^ (- e)) by (apply Z.pow_pos_nonneg; lia).
      pose proof (Z.mul_div_le (Zpos m) (2 ^ (- e)) Hp).
      pose proof (Z.mul_succ_div_gt (Zpos m) (2 ^ (- e)) Hp).
      lia.
Qed.

(** ** The claims about the segmenter *)

(** C1, as stated, fails for a mean beat distance whose frame is not a
    64-bit integer.  For the positive mean beat distance [3e19] the frame is
    [11790000000000000000]; at the one annotation [(500, 'N')] the
    difference [pos - frame] raises [OverflowError], and the segmenter
    returns no window and no label. *)
Lemma oversized_frame_returns_nothing :
  positive_finite mean_3e19 = true /\
  frame_of mean_3e19 = Ok 11790000000000000000 /\
  fits_int64 11790000000000000000 = false /\
  separate_hearbeats (rows (ramp 1000)) one_normal mean_3e19 supergroups_inc_n
  = Raise OverflowError.
Proof. repeat split; vm_compute; reflexivity. Qed.

(** C1, amended: for every signal, annotation sequence, grouping table and
    positive mean beat distance whose frame is a 64-bit integer, the
    segmenter returns a window list and a label list of equal length, in the
    order of the annotations whose symbol is a key of the table: the windows
    are [signal[pos - frame : pos + frame]] for these annotations, with both
    bounds taken in 64 bits, the labels are the table's values for their
    symbols, and the other annotations contribute nothing.  Where no bound
    overflows, the bounds are the exact difference and sum. *)
Theorem separate_hearbeats_filtered {elt : Type} (signal : list (list elt))
    (signal1 : list elt) (annotations : Annotation) (mean_rate : spec_float)
    (classes : gmap string Z) :
  positive_finite mean_rate = true ->
  frame_fits_int64 mean_rate = true ->
  column0 signal = Ok signal1 ->
  length (sample annotations) = length (symbol annotations) ->
  exists frame beats cs,
    frame_of mean_rate = Ok frame /\
    separate_hearbeats signal annotations mean_rate classes = Ok (beats, cs) /\
    length beats = length cs /\
    beats = (fun p => py_slice signal1 (int64_wrap (p.1 - frame)) (int64_wrap (p.1 + frame)))
              <$> filter (fun p => is_Some (classes !! p.2))
                    (zip (sample annotations) (symbol annotations)) /\
    Forall2 (fun c p => classes !! p.2 = Some c) cs
      (filter (fun p => is_Some (classes !! p.2))
         (zip (sample annotations) (symbol annotations))) /\
    (Forall (fun pos => fits_int64 (pos - frame) = true /\ fits_int64 (pos + frame) = true)
       (sample annotations) ->
     beats = (fun p => py_slice signal1 (p.1 - frame) (p.1 + frame))
               <$> filter (fun p => is_Some (classes !! p.2))
                     (zip (sample annotations) (symbol annotations))).
Proof.
  intros Hpos Hfits Hc Hlen.
  destruct (frame_of_positive mean_rate Hpos) as (frame & Hf & _ & _).
  pose proof (frame_fits_int64_frame _ _ Hf Hfits) as Hfit.
  exists frame, (windows_of signal1 frame classes (annotation_pairs annotations)),
    (labels_of classes (annotation_pairs annotations)).
  split; [done |].
  split; [apply separate_hearbeats_ok; [done | done | lia | by left] |].
  split; [apply windows_labels_length |].
  split; [done |]. split; [apply labels_of_kept |].
  intros Hall. unfold windows_of, kept, annotation_pairs.
  apply Forall_fmap_ext, Forall_forall. intros [pos sym] Hin. simpl.
  apply list_elem_of_filter in Hin as [_ Hin]. apply elem_of_zip_l in Hin.
  rewrite Forall_forall in Hall. destruct (Hall pos Hin) as [Ha Hb].
  by apply window_exact.
Qed.

(** The example of the specification: the signal [0 .. 999], one annotation
    [(500, 'N')], the table [{'N': 4}] and a mean beat distance that gives
    [frame = 10]. *)
Lemma separate_hearbeats_filtered_witness :
  exists frame beats cs,
    frame_of mean_26 = Ok frame /\
    separate_hearbeats (rows (ramp 1000)) one_normal mean_26 supergroups_inc_n
    = Ok (beats, cs) /\
    length beats = length cs /\
    beats = (fun p => py_slice (ramp 1000) (int64_wrap (p.1 - frame)) (int64_wrap (p.1 + frame)))
              <$> filter (fun p => is_Some (supergroups_inc_n !! p.2))
                    (zip (sample one_normal) (symbol one_normal)) /\
    Forall2 (fun c p => supergroups_inc_n !! p.2 = Some c) cs
      (filter (fun p => is_Some (supergroups_inc_n !! p.2))
         (zip (sample one_normal) (symbol one_normal))) /\
    (Forall (fun pos => fits_int64 (pos - frame) = true /\ fits_int64 (pos + frame) = true)
       (sample one_normal) ->
     beats = (fun p => py_slice (ramp 1000) (p.1 - frame) (p.1 + frame))
               <$> filter (fun p => is_Some (supergroups_inc_n !! p.2))
                     (zip (sample one_normal) (symbol one_normal))).
Proof.
  apply (separate_hearbeats_filtered (rows (ramp 1000)) (ramp 1000) one_normal
           mean_26 supergroups_inc_n); reflexivity.
Defined.

(** The same example, evaluated: one window [490 .. 509] and the label [4]. *)
Example separate_hearbeats_example :
  separate_hearbeats (rows (ramp 1000)) one_normal mean_26 supergroups_inc_n
  = Ok ([[490; 491; 492; 493; 494; 495; 496; 497; 498; 499;
          500; 501; 502; 503; 504; 505; 506; 507; 508; 509]], [4]).
Proof. vm_compute. reflexivity. Qed.

(** C5, as stated over the real numbers, fails where rounding carries the
    product across an integer.  For the mean beat distance
    [7.633587786259541], the float nearest to [6 / 0.786], the number
    [(mean * 0.786) / 2] is below 3 and its floor is 2; the product of the
    two floats is rounded to [6.0], and the frame is 3. *)
Lemma frame_is_not_the_floor_over_the_reals :
  Prim2SF 7.633587786259541%float = mean_7_63 /\
  positive_finite mean_7_63 = true /\
  real_floor_frame mean_7_63 = Some 2 /\
  frame_of mean_7_63 = Ok 3.
Proof. repeat split; vm_compute; reflexivity. Qed.

(** C5, amended: for every positive mean beat distance the frame is the
    floor of the float that the machine computes for
    [(mean_rate * 0.786) / 2], the product and the quotient each rounded to
    the nearest float; it is computed once, before the loop, and every window
    of the record is cut with this one value; for the mean beat distance
    454.73 the frame is 178. *)
Theorem frame_is_floor_once_per_record (mean_rate : float) :
  positive_finite (Prim2SF mean_rate) = true ->
  (exists frame,
     frame_of (Prim2SF mean_rate) = Ok frame /\
     is_floor (Prim2SF ((mean_rate * 0.786) / 2)%float) frame /\
     forall (elt : Type) (signal : list (list elt)) (annotations : Annotation)
            (classes : gmap string Z) beats cs,
       separate_hearbeats signal annotations (Prim2SF mean_rate) classes = Ok (beats, cs) ->
       exists signal1 : list elt,
         column0 signal = Ok signal1 /\
         beats = (fun p => py_slice signal1 (int64_wrap (p.1 - frame))
                             (int64_wrap (p.1 + frame)))
                   <$> kept classes (annotation_pairs annotations)) /\
  frame_of (Prim2SF 454.73%float) = Ok 178.
Proof.
  intros Hpos. split; [| reflexivity].
  destruct (frame_of_positive _ Hpos) as (frame & Hf & _ & _).
  exists frame. split; [done |].
  split.
  { rewrite scaled_half_primitive.
    apply py_int_is_floor; [by apply Binary64.scaled_half_nonneg | exact Hf]. }
  intros elt signal annotations classes beats cs Hret.
  apply separate_hearbeats_inv in Hret as (frame' & signal1 & Hf' & Hc & -> & _).
  rewrite Hf in Hf'. injection Hf' as <-. by exists signal1.
Qed.

Lemma frame_is_floor_once_per_record_witness :
  (exists frame,
     frame_of (Prim2SF 454.73%float) = Ok frame /\
     is_floor (Prim2SF ((454.73 * 0.786) / 2)%float) frame /\
     forall (elt : Type) (signal : list (list elt)) (annotations : Annotation)
            (classes : gmap string Z) beats cs,
       separate_hearbeats signal annotations (Prim2SF 454.73%float) classes
       = Ok (beats, cs) ->
       exists signal1 : list elt,
         column0 signal = Ok signal1 /\
         beats = (fun p => py_slice signal1 (int64_wrap (p.1 - frame))
                             (int64_wrap (p.1 + frame)))
                   <$> kept classes (annotation_pairs annotations)) /\
  frame_of (Prim2SF 454.73%float) = Ok 178.
Proof. apply (frame_is_floor_once_per_record 454.73%float). reflexivity. Defined.

(** The outcome of the segmenter, in every case in which the frame and the
    copy of column 0 exist. *)
Lemma separate_hearbeats_outcome {elt : Type} (signal : list (list elt))
    (signal1 : list elt) (annotations : Annotation) (mean_rate : spec_float)
    (classes : gmap string Z) (frame : Z) :
  frame_of mean_rate = Ok frame ->
  column0 signal = Ok signal1 ->
  separate_hearbeats signal annotations mean_rate classes
  = if negb (fits_int64 frame)
       && negb (bool_decide (kept classes (annotation_pairs annotations) = []))
    then Raise OverflowError
    else if bool_decide (length (sample annotations) <= length (symbol annotations))%nat
    then Ok (windows_of signal1 frame classes (annotation_pairs annotations),
             labels_of classes (annotation_pairs annotations))
    else Raise IndexError.
Proof.
  intros Hf Hc. unfold separate_hearbeats.
  destruct (fits_int64 frame) eqn:Hfit; simpl.
  - case_bool_decide as Hlen.
    + by rewrite (seg_run_ok _ _ _ _ _ _ Hf Hc Hlen) by (by left).
    + unfold seg_run. rewrite Hf. simpl. rewrite Hc. simpl. unfold enumerate.
      rewrite (seg_loop_index_error frame signal1 (sample annotations) 0);
        [done | simpl; rewrite drop_0; lia | by left].
  - case_bool_decide as Hkept; simpl.
    + case_bool_decide as Hlen.
      * by rewrite (seg_run_ok _ _ _ _ _ _ Hf Hc Hlen) by (by right).
      * unfold seg_run. rewrite Hf. simpl. rewrite Hc. simpl. unfold enumerate.
        rewrite (seg_loop_index_error frame signal1 (sample annotations) 0);
          [done | simpl; rewrite drop_0; lia | right; simpl; by rewrite drop_0].
    + by rewrite (seg_run_overflow _ _ _ _ _ _ Hf Hc Hfit Hkept).
Qed.

(** C6: an annotation whose symbol is not a key of the grouping table yields
    no window and no label and raises nothing: with it or without it the
    segmenter has one and the same outcome, and it returns whenever the
    frame of the positive mean beat distance is a 64-bit integer. *)
Theorem unmapped_symbol_skipped {elt : Type} (signal : list (list elt))
    (mean_rate : spec_float) (classes : gmap string Z)
    (samples1 samples2 : list Z) (symbols1 symbols2 : list string)
    (pos : Z) (sym : string) :
  length samples1 = length symbols1 ->
  classes !! sym = None ->
  separate_hearbeats signal
    {| sample := samples1 ++ pos :: samples2; symbol := symbols1 ++ sym :: symbols2 |}
    mean_rate classes
  = separate_hearbeats signal
      {| sample := samples1 ++ samples2; symbol := symbols1 ++ symbols2 |}
      mean_rate classes /\
  forall signal1 : list elt,
    positive_finite mean_rate = true ->
    frame_fits_int64 mean_rate = true ->
    column0 signal = Ok signal1 ->
    length samples2 = length symbols2 ->
    exists beats cs,
      separate_hearbeats signal
        {| sample := samples1 ++ pos :: samples2; symbol := symbols1 ++ sym :: symbols2 |}
        mean_rate classes = Ok (beats, cs) /\
      separate_hearbeats signal
        {| sample := samples1 ++ samples2; symbol := symbols1 ++ symbols2 |}
        mean_rate classes = Ok (beats, cs).
Proof.
  intros Hl1 Hsym.
  assert (Heq : separate_hearbeats signal
                  {| sample := samples1 ++ pos :: samples2;
                     symbol := symbols1 ++ sym :: symbols2 |} mean_rate classes
                = separate_hearbeats signal
                    {| sample := samples1 ++ samples2; symbol := symbols1 ++ symbols2 |}
                    mean_rate classes).
  { destruct (frame_of mean_rate) as [frame | e] eqn:Hf;
      [| unfold separate_hearbeats, seg_run; by rewrite Hf].
    destruct (column0 signal) as [signal1 | e] eqn:Hc;
      [| unfold separate_hearbeats, seg_run; rewrite Hf; simpl; by rewrite Hc].
    rewrite !(separate_hearbeats_outcome _ _ _ _ _ _ Hf Hc).
    unfold annotation_pairs. simpl.
    rewrite !zip_with_app by done. cbn [zip_with].
    rewrite !windows_of_app, !labels_of_app, !kept_app.
    rewrite (windows_of_skip _ _ _ _ _ _ Hsym), (labels_of_skip _ _ _ _ Hsym).
    rewrite (kept_cons_skip _ _ _ _ Hsym).
    rewrite !length_app. simpl.
    replace (bool_decide (length samples1 + S (length samples2)
                          <= length symbols1 + S (length symbols2))%nat)
      with (bool_decide (length samples1 + length samples2
                         <= length symbols1 + length symbols2)%nat); [done |].
    apply bool_decide_ext. lia. }
  split; [exact Heq |].
  intros signal1 Hpos Hfits Hc Hl2.
  destruct (frame_of_positive mean_rate Hpos) as (frame & Hf & _ & _).
  pose proof (frame_fits_int64_frame _ _ Hf Hfits) as Hfit.
  eexists _, _. split; [rewrite Heq |];
    (apply (separate_hearbeats_ok _ _ _ _ frame signal1);
     [done | done | simpl; rewrite !length_app; lia | by left]).
Qed.

Lemma unmapped_symbol_skipped_witness :
  separate_hearbeats (rows (ramp 1000))
    {| sample := [300] ++ 500 :: [700]; symbol := ["N"] ++ "+" :: ["N"] |}
    mean_26 supergroups_inc_n
  = separate_hearbeats (rows (ramp 1000))
      {| sample := [300] ++ [700]; symbol := ["N"] ++ ["N"] |}
      mean_26 supergroups_inc_n /\
  forall signal1 : list Z,
    positive_finite mean_26 = true ->
    frame_fits_int64 mean_26 = true ->
    column0 (rows (ramp 1000)) = Ok signal1 ->
    length [700] = length ["N"] ->
    exists beats cs,
      separate_hearbeats (rows (ramp 1000))
        {| sample := [300] ++ 500 :: [700]; symbol := ["N"] ++ "+" :: ["N"] |}
        mean_26 supergroups_inc_n = Ok (beats, cs) /\
      separate_hearbeats (rows (ramp 1000))
        {| sample := [300] ++ [700]; symbol := ["N"] ++ ["N"] |}
        mean_26 supergroups_inc_n = Ok (beats, cs).
Proof.
  apply (unmapped_symbol_skipped (rows (ramp 1000)) mean_26
           supergroups_inc_n [300] [700] ["N"] ["N"] 500 "+"); reflexivity.
Defined.

(** The two runs of this example, evaluated: the rhythm change at 500 leaves
    no trace. *)
Example unmapped_symbol_skipped_example :
  separate_hearbeats (rows (ramp 1000))
    {| sample := [300; 500; 700]; symbol := ["N"; "+"; "N"] |}
    mean_26 supergroups_inc_n
  = Ok ([py_slice (ramp 1000) 290 310; py_slice (ramp 1000) 690 710], [4; 4]) /\
  separate_hearbeats (rows (ramp 1000))
    {| sample := [300; 700]; symbol := ["N"; "N"] |}
    mean_26 supergroups_inc_n
  = Ok ([py_slice (ramp 1000) 290 310; py_slice (ramp 1000) 690 710], [4; 4]).
Proof. split; vm_compute; reflexivity. Qed.

(** C9: segmentation is a function of its inputs alone.  A run that returns
    leaves the signal, the annotations and the grouping table as they were,
    and a second run on the same objects returns the same windows and the
    same labels. *)
Theorem separate_hearbeats_pure {elt : Type} (signal : list (list elt))
    (annotations : Annotation) (mean_rate : spec_float) (classes : gmap string Z)
    (st : seg_state elt) :
  seg_run signal annotations mean_rate classes = Ok st ->
  arg_signal st = signal /\
  arg_annotations st = annotations /\
  arg_classes st = classes /\
  separate_hearbeats signal annotations mean_rate classes
  = Ok (signal_images st, labels st) /\
  separate_hearbeats (arg_signal st) (arg_annotations st) mean_rate (arg_classes st)
  = Ok (signal_images st, labels st).
Proof.
  intros Hrun.
  assert (Hret : separate_hearbeats signal annotations mean_rate classes
                 = Ok (signal_images st, labels st))
    by (unfold separate_hearbeats; rewrite Hrun; done).
  apply seg_run_inv in Hrun as (frame & signal1 & _ & _ & ->).
  repeat split; try reflexivity; exact Hret.
Qed.

Lemma separate_hearbeats_pure_witness :
  seg_run (rows (ramp 1000)) around_rhythm_change mean_26 supergroups_inc_n
  = Ok around_rhythm_change_final /\
  arg_signal around_rhythm_change_final = rows (ramp 1000) /\
  arg_annotations around_rhythm_change_final = around_rhythm_change /\
  arg_classes around_rhythm_change_final = supergroups_inc_n /\
  separate_hearbeats (rows (ramp 1000)) around_rhythm_change mean_26 supergroups_inc_n
  = Ok (signal_images around_rhythm_change_final, labels around_rhythm_change_final) /\
  separate_hearbeats (arg_signal around_rhythm_change_final)
    (arg_annotations around_rhythm_change_final) mean_26
    (arg_classes around_rhythm_change_final)
  = Ok (signal_images around_rhythm_change_final, labels around_rhythm_change_final).
Proof.
  assert (Hrun : seg_run (rows (ramp 1000)) around_rhythm_change mean_26
                   supergroups_inc_n = Ok around_rhythm_change_final)
    by (vm_compute; reflexivity).
  split; [exact Hrun |].
  exact (separate_hearbeats_pure _ _ _ _ _ Hrun).
Defined.

(** C10, as stated, fails for a mean beat distance whose frame is not a
    64-bit integer.  With the positive mean beat distance [3e19] and two
    annotations at the positions 1 and 8 of a signal of ten samples, the
    segmenter raises [OverflowError]. *)
Lemma segmentation_raises_for_positions_in_range :
  positive_finite mean_3e19 = true /\
  column0 (rows (ramp 10)) = Ok (ramp 10) /\
  Forall (fun pos => 0 <= pos < Z.of_nat (length (ramp 10))) (sample near_edges) /\
  length (sample near_edges) = length (symbol near_edges) /\
  separate_hearbeats (rows (ramp 10)) near_edges mean_3e19 supergroups_inc_n
  = Raise OverflowError.
Proof.
  split; [reflexivity |]. split; [reflexivity |].
  split; [repeat constructor; simpl; lia |]. split; [reflexivity |].
  vm_compute. reflexivity.
Qed.

(** C10, amended: for every signal, annotation sequence, grouping table and
    positive mean beat distance whose frame is a 64-bit integer, the
    segmenter returns, whatever the positions, and every window it returns
    is a run of consecutive samples of the signal of length at most
    [2 * frame], possibly empty. *)
Theorem windows_contiguous_and_bounded {elt : Type} (signal : list (list elt))
    (signal1 : list elt) (annotations : Annotation) (mean_rate : spec_float)
    (classes : gmap string Z) :
  positive_finite mean_rate = true ->
  frame_fits_int64 mean_rate = true ->
  column0 signal = Ok signal1 ->
  length (sample annotations) = length (symbol annotations) ->
  exists frame beats cs,
    frame_of mean_rate = Ok frame /\
    separate_hearbeats signal annotations mean_rate classes = Ok (beats, cs) /\
    Forall (fun w => contiguous_in w signal1 /\ Z.of_nat (length w) <= 2 * frame) beats.
Proof.
  intros Hpos Hfits Hc Hlen.
  destruct (frame_of_positive mean_rate Hpos) as (frame & Hf & _ & Hf0).
  pose proof (frame_fits_int64_frame _ _ Hf Hfits) as Hfit.
  apply column0_inv in Hc as Hsize. destruct Hsize as [_ Hsize].
  eexists frame, _, _. split; [done |].
  split; [apply (separate_hearbeats_ok _ _ _ _ frame signal1); [done | done | lia | by left] |].
  unfold windows_of. apply Forall_fmap, Forall_forall. intros [pos sym] _. simpl.
  split; [apply py_slice_contiguous |].
  apply window_length; [| done]. apply fits_int64_spec in Hfit. lia.
Qed.

Lemma windows_contiguous_and_bounded_witness :
  exists frame beats cs,
    frame_of mean_8 = Ok frame /\
    separate_hearbeats (rows (ramp 10)) anywhere mean_8 supergroups_inc_n
    = Ok (beats, cs) /\
    Forall (fun w => contiguous_in w (ramp 10) /\ Z.of_nat (length w) <= 2 * frame) beats.
Proof.
  apply (windows_contiguous_and_bounded (rows (ramp 10)) (ramp 10) anywhere mean_8
           supergroups_inc_n); reflexivity.
Defined.

(** C3, as stated, fails at the start of the signal.  With the ten samples
    [0 .. 9], [frame = 3] and one annotation at position 1, the clipped
    window would be the prefix [signal[0 : 4]]; the segmenter returns the
    empty window: the start [1 - 3 = -2] of the slice counts from the end of
    the signal, so the slice is [signal[8 : 4]]. *)
Lemma start_window_is_not_the_clipped_prefix :
  frame_of mean_8 = Ok 3 /\
  clipped_window (ramp 10) 3 1 = [0; 1; 2; 3] /\
  separate_hearbeats (rows (ramp 10)) {| sample := [1]; symbol := ["N"] |}
    mean_8 supergroups_inc_n = Ok ([[]], [4]) /\
  separate_hearbeats (rows (ramp 10)) {| sample := [1]; symbol := ["N"] |}
    mean_8 supergroups_inc_n <> Ok ([clipped_window (ramp 10) 3 1], [4]).
Proof.
  split; [reflexivity |]. split; [reflexivity |]. split; [vm_compute; reflexivity |].
  vm_compute. discriminate.
Qed.

(** C3, amended: let the frame of the positive mean beat distance be a
    64-bit integer, and [pos + frame] as well.  A qualifying annotation
    whose window starts inside the signal ([frame <= pos]) gets the clipped
    window, which ends where the signal ends when [pos + frame] is beyond
    it, without padding, and is then shorter than [2 * frame].  For an
    annotation with [0 <= pos < frame] the start of the slice is negative
    and counts from the end of the signal: the window is
    [signal[max(0, len + pos - frame) : min(pos + frame, len)]], which is
    empty as soon as the signal has [2 * frame] samples. *)
Theorem edge_windows {elt : Type} (signal : list (list elt))
    (signal1 : list elt) (annotations : Annotation) (mean_rate : spec_float)
    (classes : gmap string Z) :
  positive_finite mean_rate = true ->
  frame_fits_int64 mean_rate = true ->
  column0 signal = Ok signal1 ->
  length (sample annotations) = length (symbol annotations) ->
  exists frame beats cs,
    frame_of mean_rate = Ok frame /\
    separate_hearbeats signal annotations mean_rate classes = Ok (beats, cs) /\
    forall (k : nat) (pos : Z) (sym : string),
      kept classes (annotation_pairs annotations) !! k = Some (pos, sym) ->
      pos + frame < 2 ^ 63 ->
      exists w,
        beats !! k = Some w /\
        (frame <= pos ->
           w = clipped_window signal1 frame pos /\
           (Z.of_nat (length signal1) < pos + frame -> pos <= Z.of_nat (length signal1) ->
              w = drop (Z.to_nat (pos - frame)) signal1 /\
              Z.of_nat (length w) < 2 * frame)) /\
        (0 <= pos < frame ->
           w = take (Z.to_nat (Z.min (pos + frame) (Z.of_nat (length signal1))
                               - Z.max (Z.of_nat (length signal1) + pos - frame) 0))
                 (drop (Z.to_nat (Z.max (Z.of_nat (length signal1) + pos - frame) 0))
                    signal1) /\
           (2 * frame <= Z.of_nat (length signal1) -> w = [])).
Proof.
  intros Hpos Hfits Hc Hlen.
  destruct (frame_of_positive mean_rate Hpos) as (frame & Hf & _ & Hf0).
  pose proof (frame_fits_int64_frame _ _ Hf Hfits) as Hfit.
  eexists frame, _, _. split; [done |].
  split; [apply (separate_hearbeats_ok _ _ _ _ frame signal1); [done | done | lia | by left] |].
  intros k pos sym Hk Hsum. exists (window signal1 frame pos).
  split; [unfold windows_of; rewrite list_lookup_fmap, Hk; done |].
  split.
  - intros Hge. split; [apply window_clipped; lia |].
    intros Hend Hin. rewrite window_clipped by lia. unfold clipped_window.
    rewrite Z.max_l, Z.min_r by lia.
    assert (Htake : forall l : list elt,
              (length l <= Z.to_nat (Z.of_nat (length signal1) - (pos - frame)))%nat ->
              take (Z.to_nat (Z.of_nat (length signal1) - (pos - frame))) l = l)
      by (intros l Hl; by apply take_ge).
    rewrite Htake by (rewrite length_drop; lia).
    split; [done |]. rewrite length_drop. lia.
  - intros Hlt. split; [apply (window_wrapped signal1 frame pos Hlt Hsum) |].
    intros Hlong. by apply window_wrapped_empty.
Qed.

Lemma edge_windows_witness :
  exists frame beats cs,
    frame_of mean_8 = Ok frame /\
    separate_hearbeats (rows (ramp 10)) near_edges mean_8 supergroups_inc_n
    = Ok (beats, cs) /\
    forall (k : nat) (pos : Z) (sym : string),
      kept supergroups_inc_n (annotation_pairs near_edges) !! k = Some (pos, sym) ->
      pos + frame < 2 ^ 63 ->
      exists w,
        beats !! k = Some w /\
        (frame <= pos ->
           w = clipped_window (ramp 10) frame pos /\
           (Z.of_nat (length (ramp 10)) < pos + frame -> pos <= Z.of_nat (length (ramp 10)) ->
              w = drop (Z.to_nat (pos - frame)) (ramp 10) /\
              Z.of_nat (length w) < 2 * frame)) /\
        (0 <= pos < frame ->
           w = take (Z.to_nat (Z.min (pos + frame) (Z.of_nat (length (ramp 10)))
                               - Z.max (Z.of_nat (length (ramp 10)) + pos - frame) 0))
                 (drop (Z.to_nat (Z.max (Z.of_nat (length (ramp 10)) + pos - frame) 0))
                    (ramp 10)) /\
           (2 * frame <= Z.of_nat (length (ramp 10)) -> w = [])).
Proof.
  apply (edge_windows (rows (ramp 10)) (ramp 10) near_edges mean_8 supergroups_inc_n);
    reflexivity.
Defined.

(** The two edge windows of the example above: empty at the start, clipped
    at the end. *)
Example two_edge_windows_example :
  separate_hearbeats (rows (ramp 10)) near_edges mean_8 supergroups_inc_n
  = Ok ([[]; [5; 6; 7; 8; 9]], [4; 4]).
Proof. vm_compute. reflexivity. Qed.

(** ** The aggregator *)

(** [l[2:-1]] drops the first two and the last one: it keeps the indices
    [2 .. n - 2], that is [n - 3] elements, and none when [n <= 3]. *)
Lemma trim_take_drop {A : Type} (l : list A) :
  py_slice l start end_ = take (length l - 3) (drop 2 l).
Proof.
  unfold py_slice, start, end_, adjust_index.
  change (-1 <? 0) with true. change (2 <? 0) with false. cbv iota.
  destruct (Nat.le_gt_cases (length l) 2) as [Hshort | Hlong].
  - replace (Z.to_nat (Z.max (-1 + Z.of_nat (length l)) 0 - Z.min 2 (Z.of_nat (length l))))
      with 0%nat by lia.
    replace (length l - 3)%nat with 0%nat by lia. done.
  - replace (Z.to_nat (Z.min 2 (Z.of_nat (length l)))) with 2%nat by lia.
    f_equal. lia.
Qed.

Lemma trim_length {A : Type} (l : list A) :
  length (py_slice l start end_) = (length l - 3)%nat.
Proof. rewrite trim_take_drop, length_take, length_drop. lia. Qed.

Lemma trim_lookup {A : Type} (l : list A) (i : nat) :
  py_slice l start end_ !! i
  = if decide (i + 3 < length l)%nat then l !! (i + 2)%nat else None.
Proof.
  rewrite trim_take_drop. case_decide as Hi.
  - rewrite lookup_take_lt by lia. rewrite lookup_drop. f_equal. lia.
  - apply lookup_ge_None. rewrite length_take, length_drop. lia.
Qed.

Lemma list_comprehension_ok {A B : Type} (f : A -> result B) (xs : list A) :
  forall ys, list_comprehension f xs = Ok ys -> Forall2 (fun x y => f x = Ok y) xs ys.
Proof.
  induction xs as [| x xs IH]; simpl; intros ys Hys.
  - injection Hys as <-. constructor.
  - destruct (f x) as [y | e] eqn:Hy; [| done]. simpl in Hys.
    destruct (list_comprehension f xs) as [ys' | e] eqn:Hys'; [| done].
    simpl in Hys. injection Hys as <-. constructor; [done | by apply IH].
Qed.

Lemma list_comprehension_total {A B : Type} (f : A -> result B) (xs : list A) :
  (forall x, exists y, f x = Ok y) -> exists ys, list_comprehension f xs = Ok ys.
Proof.
  intros Hf. induction xs as [| x xs [ys IH]]; simpl; [by exists [] |].
  destruct (Hf x) as [y ->]. rewrite IH. simpl. by eexists.
Qed.

(** The comprehension over the rasterizer call of the class returns only for
    the empty list. *)
Lemma list_comprehension_self_get_image_array {elt image : Type} (beats : list (list elt)) :
  list_comprehension (self_get_image_array (image := image)) beats
  = match beats with
    | [] => Ok []
    | _ :: _ => Raise TypeError
    end.
Proof. by destruct beats. Qed.

Section AggregatorFacts.
Context {elt image fields : Type}.
Variable load_data : string -> result (list (list elt) * fields * Annotation).
Variable get_mean_heartrate : list (list elt) -> fields -> result spec_float.
Variable call_get_image_array : list elt -> result image.
Implicit Types (self : process_data image) (classes : gmap string Z).

Lemma separate_hearbeats_lengths (signal : list (list elt)) annotations mean_rate
    classes beats cs :
  separate_hearbeats signal annotations mean_rate classes = Ok (beats, cs) ->
  length beats = length cs.
Proof.
  intros (frame & signal1 & _ & _ & -> & ->)%separate_hearbeats_inv.
  apply windows_labels_length.
Qed.

(** With matching counts and a rasterizer call that returns for the retained
    windows, one record appends the images of [beats[2:-1]] and the labels
    [labels[2:-1]], index by index. *)
Lemma accumulate_ok (beats : list (list elt)) (cs : list Z) self imgs :
  length beats = length cs ->
  list_comprehension call_get_image_array (py_slice beats start end_) = Ok imgs ->
  accumulate call_get_image_array beats cs self
  = ({| image_arrays_ := image_arrays_ self ++ imgs;
        label_strings_ := label_strings_ self ++ py_slice cs start end_ |}, Ok ()).
Proof.
  intros Hlen Himgs. unfold accumulate. rewrite Hlen, Nat.eqb_refl. simpl.
  rewrite Himgs. done.
Qed.

(** With a mismatch the [assert] raises and the instance is untouched. *)
Lemma accumulate_mismatch (beats : list (list elt)) (cs : list Z) self :
  length beats <> length cs ->
  accumulate call_get_image_array beats cs self = (self, Raise AssertionError).
Proof.
  intros Hne. unfold accumulate.
  destruct (Nat.eqb_spec (length beats) (length cs)); done.
Qed.

(** With a rasterizer call that raises, the labels of the record are already
    appended when the exception leaves the loop. *)
Lemma accumulate_raise (beats : list (list elt)) (cs : list Z) self e :
  length beats = length cs ->
  list_comprehension call_get_image_array (py_slice beats start end_) = Raise e ->
  accumulate call_get_image_array beats cs self
  = ({| image_arrays_ := image_arrays_ self;
        label_strings_ := label_strings_ self ++ py_slice cs start end_ |}, Raise e).
Proof.
  intros Hlen Himgs. unfold accumulate. rewrite Hlen, Nat.eqb_refl. simpl.
  rewrite Himgs. done.
Qed.

(** An exception in one record ends the run; the later records are not read. *)
Lemma create_img_arrays_with_stops classes record_name rest self self' e :
  process_record load_data get_mean_heartrate call_get_image_array classes self record_name
  = (self', Raise e) ->
  create_img_arrays_with load_data get_mean_heartrate call_get_image_array classes
    (record_name :: rest) self = (self', Raise e).
Proof. intros H. simpl. by rewrite H. Qed.

Lemma list_comprehension_raise {A B : Type} (f : A -> result B) (xs : list A) e :
  list_comprehension f xs = Raise e -> exists x, x ∈ xs /\ f x = Raise e.
Proof.
  induction xs as [| x xs IH]; simpl; [done |].
  destruct (f x) as [y | e'] eqn:Hy; simpl.
  - destruct (list_comprehension f xs) as [ys | e'']; simpl; [done |].
    intros [= ->]. destruct (IH eq_refl) as (x' & Hin & Hx').
    exists x'. split; [by right | done].
  - intros [= ->]. exists x. split; [by left | done].
Qed.

(** The three ways a record can end. *)
Lemma process_record_cases classes self record_name self' r :
  process_record load_data get_mean_heartrate call_get_image_array classes self record_name
  = (self', r) ->
  (exists e w, r = Raise e /\ call_get_image_array w = Raise e) \/
  (exists e, r = Raise e /\ self' = self) \/
  (exists imgs,
     r = Ok () /\
     image_arrays_ self' = image_arrays_ self ++ imgs /\
     label_strings_ self'
     = label_strings_ self
       ++ (record_pairs load_data get_mean_heartrate classes record_name).*2 /\
     Forall2 (fun p img => call_get_image_array p.1 = Ok img)
       (record_pairs load_data get_mean_heartrate classes record_name) imgs).
Proof.
  unfold process_record, record_pairs.
  destruct (load_data record_name) as [[[signal flds] annotations] | e];
    [| intros [= <- <-]; right; left; by exists e].
  destruct (get_mean_heartrate signal flds) as [mean | e];
    [| intros [= <- <-]; right; left; by exists e].
  destruct (separate_hearbeats signal annotations mean classes) as [[beats cs] | e] eqn:Hseg;
    [| intros [= <- <-]; right; left; by exists e].
  apply separate_hearbeats_lengths in Hseg.
  assert (Htrim : length (py_slice beats start end_) = length (py_slice cs start end_))
    by (rewrite !trim_length; lia).
  destruct (list_comprehension call_get_image_array (py_slice beats start end_))
    as [imgs | e] eqn:Himgs.
  - rewrite (accumulate_ok _ _ _ _ Hseg Himgs). intros [= <- <-].
    right; right. exists imgs. simpl.
    split; [done |]. split; [done |].
    split; [by rewrite snd_zip by lia |].
    apply list_comprehension_ok in Himgs.
    rewrite <- (fst_zip (py_slice beats start end_) (py_slice cs start end_)) in Himgs by lia.
    apply Forall2_fmap_l in Himgs. exact Himgs.
  - rewrite (accumulate_raise _ _ _ _ Hseg Himgs). intros [= <- <-].
    apply list_comprehension_raise in Himgs as (w & _ & Hw).
    left. by exists e, w.
Qed.

(** A run either ends in an exception of the rasterizer call, or it has
    appended, for the records it completed, one image per retained pair and
    the label of that pair, in step. *)
Lemma create_img_arrays_with_cases classes record_names : forall self self' r,
  create_img_arrays_with load_data get_mean_heartrate call_get_image_array classes
    record_names self = (self', r) ->
  (exists e w, r = Raise e /\ call_get_image_array w = Raise e) \/
  (exists completed imgs,
     completed `prefix_of` record_names /\
     (r = Ok () -> completed = record_names) /\
     image_arrays_ self' = image_arrays_ self ++ imgs /\
     label_strings_ self'
     = label_strings_ self
       ++ (retained_pairs load_data get_mean_heartrate classes completed).*2 /\
     Forall2 (fun p img => call_get_image_array p.1 = Ok img)
       (retained_pairs load_data get_mean_heartrate classes completed) imgs).
Proof.
  induction record_names as [| name rest IH]; intros self self' r Hrun; simpl in Hrun.
  - injection Hrun as <- <-. right. exists [], []. simpl.
    rewrite !app_nil_r. repeat split; done.
  - destruct (process_record _ _ _ classes self name) as [self1 r1] eqn:Hstep.
    destruct (process_record_cases _ _ _ _ _ Hstep)
      as [(e & w & -> & Hw) | [(e & -> & ->) | (imgs1 & -> & Hi1 & Hl1 & Hp1)]].
    + injection Hrun as <- <-. left. by exists e, w.
    + injection Hrun as <- <-. right. exists [], []. simpl.
      rewrite !app_nil_r. split; [apply prefix_nil |]. repeat split; done.
    + destruct (IH _ _ _ Hrun)
        as [(e & w & -> & Hw) | (completed & imgs & Hpre & Hall & Hi & Hl & Hp)].
      * left. by exists e, w.
      * right. exists (name :: completed), (imgs1 ++ imgs).
        split; [by apply prefix_cons |].
        split; [intros Hr; by rewrite (Hall Hr) |].
        unfold retained_pairs in *. simpl. rewrite fmap_app.
        split; [by rewrite Hi, Hi1, app_assoc |].
        split; [by rewrite Hl, Hl1, app_assoc |].
        by apply Forall2_app.
Qed.

(** If the rasterizer call returns for every window, the two lists keep equal
    lengths through every run, whether the run returns or raises. *)
Lemma create_img_arrays_with_lengths classes record_names self self' r :
  (forall w, exists img, call_get_image_array w = Ok img) ->
  length (image_arrays self) = length (label_strings self) ->
  create_img_arrays_with load_data get_mean_heartrate call_get_image_array classes
    record_names self = (self', r) ->
  length (image_arrays self') = length (label_strings self').
Proof.
  intros Htotal Hinv Hrun.
  destruct (create_img_arrays_with_cases _ _ _ _ _ Hrun)
    as [(e & w & _ & Hw) | (completed & imgs & _ & _ & Hi & Hl & Hp)].
  - destruct (Htotal w) as [img Himg]. congruence.
  - unfold image_arrays, label_strings in *.
    rewrite Hi, Hl, !length_app, length_fmap, Hinv.
    apply Forall2_length in Hp. lia.
Qed.

(** And so through any sequence of calls, whatever their tables and record
    names. *)
Lemma successive_calls_lengths (calls : list (gmap string Z * list string)) :
  (forall w, exists img, call_get_image_array w = Ok img) ->
  forall self,
    length (image_arrays self) = length (label_strings self) ->
    length (image_arrays
              (successive_calls load_data get_mean_heartrate call_get_image_array calls self))
    = length (label_strings
                (successive_calls load_data get_mean_heartrate call_get_image_array calls self)).
Proof.
  intros Htotal. unfold successive_calls.
  induction calls as [| [classes record_names] calls IH]; intros self Hinv; [done |].
  simpl. apply IH.
  destruct (create_img_arrays_with _ _ _ classes record_names self) as [self' r] eqn:Hrun.
  exact (create_img_arrays_with_lengths _ _ _ _ _ Htotal Hinv Hrun).
Qed.




End AggregatorFacts.

(** ** The claims about the aggregator *)

(** C7: the count of windows is compared with the count of labels before
    anything is trimmed or appended.  For what the segmenter returns the
    comparison holds, so the [assert] passes; on any mismatch the [assert]
    raises with the instance untouched; and an exception in one record ends
    the run at once, whatever records follow. *)
Theorem assertion_guards_accumulation {elt image fields : Type}
    (load_data : string -> result (list (list elt) * fields * Annotation))
    (get_mean_heartrate : list (list elt) -> fields -> result spec_float)
    (call_get_image_array : list elt -> result image)
    (classes : gmap string Z) (self : process_data image)
    (record_name : string) (rest : list string)
    (signal : list (list elt)) (flds : fields) (annotations : Annotation)
    (mean : spec_float) (beats : list (list elt)) (cs : list Z) :
  load_data record_name = Ok (signal, flds, annotations) ->
  get_mean_heartrate signal flds = Ok mean ->
  separate_hearbeats signal annotations mean classes = Ok (beats, cs) ->
  (length beats =? length cs)%nat = true /\
  process_record load_data get_mean_heartrate call_get_image_array classes self record_name
  = accumulate call_get_image_array beats cs self /\
  (forall (beats' : list (list elt)) (cs' : list Z),
     length beats' <> length cs' ->
     accumulate call_get_image_array beats' cs' self = (self, Raise AssertionError)) /\
  (forall self' e,
     process_record load_data get_mean_heartrate call_get_image_array classes self record_name
     = (self', Raise e) ->
     create_img_arrays_with load_data get_mean_heartrate call_get_image_array classes
       (record_name :: rest) self = (self', Raise e)).
Proof.
  intros Hload Hmean Hseg.
  split; [apply Nat.eqb_eq, (separate_hearbeats_lengths _ _ _ _ _ _ Hseg) |].
  split; [unfold process_record; by rewrite Hload, Hmean, Hseg |].
  split; [intros beats' cs'; apply accumulate_mismatch |].
  intros self' e. apply create_img_arrays_with_stops.
Qed.

Lemma assertion_guards_accumulation_witness :
  load_one (rows (ramp 1000)) one_normal "100" = Ok (rows (ramp 1000), (), one_normal) /\
  constant_rate mean_26 (rows (ramp 1000)) () = Ok mean_26 /\
  separate_hearbeats (rows (ramp 1000)) one_normal mean_26 supergroups_inc_n
  = Ok ([py_slice (ramp 1000) 490 510], [4]) /\
  (length [py_slice (ramp 1000) 490 510] =? length [4])%nat = true /\
  process_record (load_one (rows (ramp 1000)) one_normal) (constant_rate mean_26)
    (self_get_image_array (image := unit)) supergroups_inc_n init "100"
  = accumulate self_get_image_array [py_slice (ramp 1000) 490 510] [4] init /\
  (forall (beats' : list (list Z)) (cs' : list Z),
     length beats' <> length cs' ->
     accumulate (self_get_image_array (image := unit)) beats' cs' init
     = (init, Raise AssertionError)) /\
  (forall self' e,
     process_record (load_one (rows (ramp 1000)) one_normal) (constant_rate mean_26)
       (self_get_image_array (image := unit)) supergroups_inc_n init "100"
     = (self', Raise e) ->
     create_img_arrays_with (load_one (rows (ramp 1000)) one_normal)
       (constant_rate mean_26) (self_get_image_array (image := unit))
       supergroups_inc_n ("100" :: ["101"]) init = (self', Raise e)).
Proof.
  assert (Hload : load_one (rows (ramp 1000)) one_normal "100"
                  = Ok (rows (ramp 1000), (), one_normal)) by reflexivity.
  assert (Hmean : constant_rate mean_26 (rows (ramp 1000)) () = Ok mean_26)
    by reflexivity.
  assert (Hseg : separate_hearbeats (rows (ramp 1000)) one_normal mean_26
                   supergroups_inc_n = Ok ([py_slice (ramp 1000) 490 510], [4]))
    by (vm_compute; reflexivity).
  split; [exact Hload |]. split; [exact Hmean |]. split; [exact Hseg |].
  exact (assertion_guards_accumulation
           (load_one (rows (ramp 1000)) one_normal) (constant_rate mean_26)
           (self_get_image_array (image := unit)) supergroups_inc_n init "100" ["101"]
           (rows (ramp 1000)) () one_normal mean_26 [py_slice (ramp 1000) 490 510] [4]
           Hload Hmean Hseg).
Defined.

(** What one record does to the instance with the rasterizer call of the
    class: nothing when at most three beats were segmented, and otherwise the
    labels [labels[2:-1]] are appended and [TypeError] is raised before any
    image is. *)
Lemma accumulate_self_get_image_array {elt image : Type} (beats : list (list elt))
    (cs : list Z) (self : process_data image) :
  length beats = length cs ->
  accumulate self_get_image_array beats cs self
  = if decide (length beats <= 3)%nat then (self, Ok ())
    else ({| image_arrays_ := image_arrays_ self;
             label_strings_ := label_strings_ self ++ py_slice cs start end_ |},
          Raise TypeError).
Proof.
  intros Hlen. case_decide as Hn.
  - assert (Hb : py_slice beats start end_ = [])
      by (apply length_zero_iff_nil; rewrite trim_length; lia).
    assert (Hc : py_slice cs start end_ = [])
      by (apply length_zero_iff_nil; rewrite trim_length; lia).
    rewrite (accumulate_ok _ _ _ _ [] Hlen) by (rewrite Hb; done).
    rewrite Hc, !app_nil_r. by destruct self.
  - apply accumulate_raise; [done |].
    rewrite list_comprehension_self_get_image_array.
    destruct (py_slice beats start end_) eqn:Hb; [| done].
    apply (f_equal length) in Hb. rewrite trim_length in Hb. simpl in Hb. lia.
Qed.

(** C2 at a record with four qualifying annotations: the claim expects the
    pair at index 2 to be rendered and appended.  The label at index 2 is
    appended, the rasterizer call raises [TypeError], and no image is
    appended. *)
Theorem create_img_arrays_four_beats :
  create_img_arrays (load_one (rows (ramp 1000)) four_ectopic) (constant_rate mean_26)
    supergroups_exc_n ["100"] (init (image := unit))
  = ({| image_arrays_ := []; label_strings_ := [2] |}, Raise TypeError).
Proof. vm_compute. reflexivity. Qed.




(** * Further properties *)

(** ** What a run adds to the instance *)

Lemma labels_of_values (classes : gmap string Z) (pairs : list (Z * string)) :
  Forall (fun c => exists sym, classes !! sym = Some c) (labels_of classes pairs).
Proof.
  induction pairs as [| [pos sym] pairs IH]; [constructor |].
  unfold labels_of. simpl. destruct (classes !! sym) as [c |] eqn:Hc; [| done].
  constructor; [by exists sym | done].
Qed.

Lemma py_slice_Forall {A : Type} (P : A -> Prop) (l : list A) (a b : Z) :
  Forall P l -> Forall P (py_slice l a b).
Proof. intros H. unfold py_slice. by apply Forall_take, Forall_drop. Qed.

Section AggregatorAppends.
Context {elt image fields : Type}.
Variable load_data : string -> result (list (list elt) * fields * Annotation).
Variable get_mean_heartrate : list (list elt) -> fields -> result spec_float.
Variable call_get_image_array : list elt -> result image.
Implicit Types (self : process_data image) (classes : gmap string Z).

Lemma appended_nothing classes self r : appended call_get_image_array classes self self r.
Proof.
  exists [], []. rewrite !app_nil_r. repeat split; done || constructor.
Qed.

Lemma appended_trans classes self self1 self2 r :
  appended call_get_image_array classes self self1 (Ok ()) ->
  appended call_get_image_array classes self1 self2 r ->
  appended call_get_image_array classes self self2 r.
Proof.
  intros (imgs1 & cs1 & Hi1 & Hl1 & _ & Hf1 & Hv1 & He1)
         (imgs2 & cs2 & Hi2 & Hl2 & Hle2 & Hf2 & Hv2 & He2).
  specialize (He1 eq_refl).
  exists (imgs1 ++ imgs2), (cs1 ++ cs2).
  rewrite Hi2, Hi1, Hl2, Hl1, !app_assoc, !length_app.
  split; [done |]. split; [done |]. split; [lia |].
  split; [by apply Forall_app |]. split; [by apply Forall_app |].
  intros Hr. specialize (He2 Hr). lia.
Qed.

Lemma process_record_appended classes self record_name self' r :
  process_record load_data get_mean_heartrate call_get_image_array classes self record_name
  = (self', r) ->
  appended call_get_image_array classes self self' r.
Proof.
  unfold process_record.
  destruct (load_data record_name) as [[[signal flds] annotations] | e];
    [| intros [= <- <-]; apply appended_nothing].
  destruct (get_mean_heartrate signal flds) as [mean | e];
    [| intros [= <- <-]; apply appended_nothing].
  destruct (separate_hearbeats signal annotations mean classes) as [[beats cs] | e] eqn:Hseg;
    [| intros [= <- <-]; apply appended_nothing].
  pose proof (separate_hearbeats_lengths _ _ _ _ _ _ Hseg) as Hlen.
  apply separate_hearbeats_inv in Hseg as (frame & signal1 & _ & _ & _ & Hcs).
  assert (Hvals : Forall (fun c => exists sym, classes !! sym = Some c)
                    (py_slice cs start end_))
    by (apply py_slice_Forall; rewrite Hcs; apply labels_of_values).
  destruct (list_comprehension call_get_image_array (py_slice beats start end_))
    as [imgs | e] eqn:Himgs.
  - rewrite (accumulate_ok _ _ _ _ _ Hlen Himgs). intros [= <- <-].
    apply list_comprehension_ok in Himgs.
    pose proof (Forall2_length _ _ _ Himgs) as Hn.
    rewrite !trim_length in Hn.
    exists imgs, (py_slice cs start end_). simpl. rewrite trim_length.
    split; [done |]. split; [done |]. split; [lia |].
    split; [| split; [done | intros _; lia]].
    apply Forall_forall. intros img Himg.
    apply list_elem_of_lookup in Himg as [i Hi].
    destruct (Forall2_lookup_r _ _ _ _ _ Himgs Hi) as (w & _ & Hw). by exists w.
  - rewrite (accumulate_raise _ _ _ _ _ Hlen Himgs). intros [= <- <-].
    exists [], (py_slice cs start end_). simpl. rewrite app_nil_r.
    split; [done |]. split; [done |]. split; [lia |].
    split; [constructor |]. split; [done | done].
Qed.

Lemma create_img_arrays_with_appended classes record_names : forall self self' r,
  create_img_arrays_with load_data get_mean_heartrate call_get_image_array classes
    record_names self = (self', r) ->
  appended call_get_image_array classes self self' r.
Proof.
  induction record_names as [| name rest IH]; intros self self' r Hrun; simpl in Hrun.
  - injection Hrun as <- <-. apply appended_nothing.
  - destruct (process_record _ _ _ classes self name) as [self1 [[] | e]] eqn:Hstep.
    + apply process_record_appended in Hstep.
      exact (appended_trans _ _ _ _ _ Hstep (IH _ _ _ Hrun)).
    + injection Hrun as <- <-. by apply process_record_appended in Hstep.
Qed.

End AggregatorAppends.

(** X1: a call never removes or changes what the instance holds, and never
    appends more images than labels, whatever the rasterizer call does and
    however the call ends: the old images are a prefix of the new ones, the
    old labels a prefix of the new ones, and the images grow by at most as
    much as the labels. *)
Theorem calls_only_append {elt image fields : Type}
    (load_data : string -> result (list (list elt) * fields * Annotation))
    (get_mean_heartrate : list (list elt) -> fields -> result spec_float)
    (call_get_image_array : list elt -> result image)
    (classes : gmap string Z) (record_names : list string)
    (self : process_data image) :
  let self' :=
    (create_img_arrays_with load_data get_mean_heartrate call_get_image_array classes
       record_names self).1 in
  image_arrays self `prefix_of` image_arrays self' /\
  label_strings self `prefix_of` label_strings self' /\
  (length (image_arrays self') - length (image_arrays self)
   <= length (label_strings self') - length (label_strings self))%nat.
Proof.
  cbv zeta.
  destruct (create_img_arrays_with _ _ _ classes record_names self) as [self' r] eqn:Hrun.
  apply create_img_arrays_with_appended in Hrun
    as (imgs & cs & Hi & Hl & Hle & _).
  unfold image_arrays, label_strings. simpl. rewrite Hi, Hl, !length_app.
  split; [by apply prefix_app_r |]. split; [by apply prefix_app_r | lia].
Qed.

(** X2: every label a call appends is a value of the grouping table of that
    call, also when the call raises. *)
Theorem appended_labels_are_table_values {elt image fields : Type}
    (load_data : string -> result (list (list elt) * fields * Annotation))
    (get_mean_heartrate : list (list elt) -> fields -> result spec_float)
    (call_get_image_array : list elt -> result image)
    (classes : gmap string Z) (record_names : list string)
    (self : process_data image) :
  exists cs,
    label_strings
      (create_img_arrays_with load_data get_mean_heartrate call_get_image_array classes
         record_names self).1
    = label_strings self ++ cs /\
    Forall (fun c => exists sym, classes !! sym = Some c) cs.
Proof.
  destruct (create_img_arrays_with _ _ _ classes record_names self) as [self' r] eqn:Hrun.
  apply create_img_arrays_with_appended in Hrun
    as (imgs & cs & _ & Hl & _ & _ & Hv & _).
  by exists cs.
Qed.

(** X3: the class as it is written never appends an image, whatever the
    records and however the call ends, and a call that returns has left the
    instance exactly as it was. *)
Theorem class_never_appends_an_image {elt image fields : Type}
    (load_data : string -> result (list (list elt) * fields * Annotation))
    (get_mean_heartrate : list (list elt) -> fields -> result spec_float)
    (classes : gmap string Z) (record_names : list string)
    (self : process_data image) :
  let out := create_img_arrays load_data get_mean_heartrate classes record_names self in
  image_arrays out.1 = image_arrays self /\
  (out.2 = Ok () -> out.1 = self).
Proof.
  cbv zeta. unfold create_img_arrays.
  destruct (create_img_arrays_with _ _ _ classes record_names self) as [self' r] eqn:Hrun.
  apply create_img_arrays_with_appended in Hrun
    as (imgs & cs & Hi & Hl & _ & Hf & _ & He).
  assert (Himgs : imgs = []).
  { destruct imgs as [| img imgs]; [done |].
    apply Forall_cons in Hf as [[w Hw] _]. discriminate Hw. }
  subst imgs. rewrite app_nil_r in Hi. simpl.
  split; [done |]. intros Hr. specialize (He Hr). simpl in He.
  symmetry in He. apply length_zero_iff_nil in He. subst cs.
  rewrite app_nil_r in Hl. destruct self, self'. simpl in *. by subst.
Qed.

(** X4: a call over the records [names1 ++ names2] does what a call over
    [names1] does, followed, if that returned, by a call over [names2] on
    the same instance; if the first raises, so does the whole, with the same
    instance. *)
Theorem run_over_concatenated_records {elt image fields : Type}
    (load_data : string -> result (list (list elt) * fields * Annotation))
    (get_mean_heartrate : list (list elt) -> fields -> result spec_float)
    (call_get_image_array : list elt -> result image)
    (classes : gmap string Z) (names1 names2 : list string)
    (self : process_data image) :
  create_img_arrays_with load_data get_mean_heartrate call_get_image_array classes
    (names1 ++ names2) self
  = match create_img_arrays_with load_data get_mean_heartrate call_get_image_array
            classes names1 self with
    | (self1, Ok _) =>
        create_img_arrays_with load_data get_mean_heartrate call_get_image_array
          classes names2 self1
    | (self1, Raise e) => (self1, Raise e)
    end.
Proof.
  revert self. induction names1 as [| name names1 IH]; intros self; simpl; [done |].
  destruct (process_record _ _ _ classes self name) as [self1 [[] | e]]; [apply IH | done].
Qed.

(** ** A heart-rate estimate that is not a finite number *)

Lemma frame_of_non_finite (mean_rate : spec_float) (e : exn) :
  non_finite_error mean_rate = Some e -> frame_of mean_rate = Raise e.
Proof. destruct mean_rate as [| [] | |]; simpl; intros [= <-]; reflexivity. Qed.

(** X5: when the heart-rate estimate of a record is [nan] (no heart rate
    could be computed) or infinite, the segmenter raises [ValueError] or
    [OverflowError] before it looks at the signal, the annotations or the
    table, and the call ends at that record with this exception and with the
    instance as the records before it left it. *)
Theorem non_finite_rate_aborts {elt image fields : Type}
    (load_data : string -> result (list (list elt) * fields * Annotation))
    (get_mean_heartrate : list (list elt) -> fields -> result spec_float)
    (call_get_image_array : list elt -> result image)
    (classes : gmap string Z) (self : process_data image)
    (record_name : string) (rest : list string)
    (signal : list (list elt)) (flds : fields) (annotations : Annotation)
    (mean : spec_float) (e : exn) :
  load_data record_name = Ok (signal, flds, annotations) ->
  get_mean_heartrate signal flds = Ok mean ->
  non_finite_error mean = Some e ->
  (forall (signal' : list (list elt)) annotations' classes',
     separate_hearbeats signal' annotations' mean classes' = Raise e) /\
  create_img_arrays_with load_data get_mean_heartrate call_get_image_array classes
    (record_name :: rest) self = (self, Raise e).
Proof.
  intros Hload Hmean Hnf. apply frame_of_non_finite in Hnf.
  assert (Hseg : forall (signal' : list (list elt)) annotations' classes',
             separate_hearbeats signal' annotations' mean classes' = Raise e).
  { intros. unfold separate_hearbeats, seg_run. by rewrite Hnf. }
  split; [exact Hseg |].
  simpl. unfold process_record. by rewrite Hload, Hmean, Hseg.
Qed.

Lemma non_finite_rate_aborts_witness :
  load_one (rows (ramp 1000)) five_normal "100" = Ok (rows (ramp 1000), (), five_normal) /\
  constant_rate S754_nan (rows (ramp 1000)) () = Ok S754_nan /\
  non_finite_error S754_nan = Some ValueError /\
  (forall (signal' : list (list Z)) annotations' classes',
     separate_hearbeats signal' annotations' S754_nan classes' = Raise ValueError) /\
  create_img_arrays_with (load_one (rows (ramp 1000)) five_normal)
    (constant_rate S754_nan) count_samples supergroups_inc_n ("100" :: ["101"]) init
  = (init, Raise ValueError).
Proof.
  split; [reflexivity |]. split; [reflexivity |]. split; [reflexivity |].
  apply (non_finite_rate_aborts (load_one (rows (ramp 1000)) five_normal)
           (constant_rate S754_nan) count_samples supergroups_inc_n init "100" ["101"]
           (rows (ramp 1000)) () five_normal S754_nan ValueError); reflexivity.
Defined.

(** ** More on the windows *)

Lemma window_interior {A : Type} (signal1 : list A) (frame pos : Z) :
  0 <= frame <= pos -> pos + frame <= Z.of_nat (length signal1) ->
  pos + frame < 2 ^ 63 ->
  window signal1 frame pos
  = take (Z.to_nat (2 * frame)) (drop (Z.to_nat (pos - frame)) signal1).
Proof.
  intros Hf Hin Hfit. rewrite window_clipped by done. unfold clipped_window.
  rewrite Z.max_l, Z.min_l by lia. f_equal. lia.
Qed.

(** X6: for a positive mean beat distance whose frame is a 64-bit integer,
    a qualifying annotation whose window lies inside the signal
    ([frame <= pos] and [pos + frame <= len]) gets exactly [2 * frame]
    samples, the samples [pos - frame .. pos + frame - 1] in their order, so
    that the annotated sample is the one at index [frame] of the window. *)
Theorem interior_window_is_centred {elt : Type} (signal : list (list elt))
    (signal1 : list elt) (annotations : Annotation) (mean_rate : spec_float)
    (classes : gmap string Z) :
  positive_finite mean_rate = true ->
  frame_fits_int64 mean_rate = true ->
  column0 signal = Ok signal1 ->
  length (sample annotations) = length (symbol annotations) ->
  exists frame beats cs,
    frame_of mean_rate = Ok frame /\
    separate_hearbeats signal annotations mean_rate classes = Ok (beats, cs) /\
    forall (k : nat) (pos : Z) (sym : string),
      kept classes (annotation_pairs annotations) !! k = Some (pos, sym) ->
      frame <= pos -> pos + frame <= Z.of_nat (length signal1) ->
      exists w,
        beats !! k = Some w /\
        Z.of_nat (length w) = 2 * frame /\
        (forall j : nat, Z.of_nat j < 2 * frame ->
           w !! j = signal1 !! (Z.to_nat (pos - frame) + j)%nat) /\
        (0 < frame -> w !! Z.to_nat frame = signal1 !! Z.to_nat pos).
Proof.
  intros Hpos Hfits Hc Hlen.
  destruct (frame_of_positive mean_rate Hpos) as (frame & Hf & _ & Hf0).
  pose proof (frame_fits_int64_frame _ _ Hf Hfits) as Hfit.
  apply column0_inv in Hc as Hsize. destruct Hsize as [_ Hsize].
  eexists frame, _, _. split; [done |].
  split; [apply (separate_hearbeats_ok _ _ _ _ frame signal1); [done | done | lia | by left] |].
  intros k pos sym Hk Hge Hin. exists (window signal1 frame pos).
  split; [unfold windows_of; rewrite list_lookup_fmap, Hk; done |].
  rewrite window_interior by lia.
  assert (Hlookup : forall j : nat, Z.of_nat j < 2 * frame ->
            take (Z.to_nat (2 * frame)) (drop (Z.to_nat (pos - frame)) signal1) !! j
            = signal1 !! (Z.to_nat (pos - frame) + j)%nat).
  { intros j Hj. rewrite lookup_take_lt by lia. by rewrite lookup_drop. }
  split; [rewrite length_take, length_drop; lia |].
  split; [exact Hlookup |].
  intros Hfpos. rewrite Hlookup by lia. f_equal. lia.
Qed.

Lemma interior_window_is_centred_witness :
  exists frame beats cs,
    frame_of mean_26 = Ok frame /\
    separate_hearbeats (rows (ramp 1000)) one_normal mean_26 supergroups_inc_n
    = Ok (beats, cs) /\
    forall (k : nat) (pos : Z) (sym : string),
      kept supergroups_inc_n (annotation_pairs one_normal) !! k = Some (pos, sym) ->
      frame <= pos -> pos + frame <= Z.of_nat (length (ramp 1000)) ->
      exists w,
        beats !! k = Some w /\
        Z.of_nat (length w) = 2 * frame /\
        (forall j : nat, Z.of_nat j < 2 * frame ->
           w !! j = ramp 1000 !! (Z.to_nat (pos - frame) + j)%nat) /\
        (0 < frame -> w !! Z.to_nat frame = ramp 1000 !! Z.to_nat pos).
Proof.
  apply (interior_window_is_centred (rows (ramp 1000)) (ramp 1000) one_normal mean_26
           supergroups_inc_n); reflexivity.
Defined.

(** ** How segmentations compose *)

(** X7: segmenting annotations that are the concatenation of two annotation
    sequences gives the windows of the first followed by the windows of the
    second, and likewise the labels. *)
Theorem segmentation_of_concatenated_annotations {elt : Type}
    (signal : list (list elt)) (mean_rate : spec_float) (classes : gmap string Z)
    (samples1 samples2 : list Z) (symbols1 symbols2 : list string)
    (beats1 beats2 : list (list elt)) (cs1 cs2 : list Z) :
  length samples1 = length symbols1 ->
  separate_hearbeats signal {| sample := samples1; symbol := symbols1 |}
    mean_rate classes = Ok (beats1, cs1) ->
  separate_hearbeats signal {| sample := samples2; symbol := symbols2 |}
    mean_rate classes = Ok (beats2, cs2) ->
  separate_hearbeats signal
    {| sample := samples1 ++ samples2; symbol := symbols1 ++ symbols2 |}
    mean_rate classes = Ok (beats1 ++ beats2, cs1 ++ cs2).
Proof.
  intros Hl1 Hret1 Hret2.
  apply separate_hearbeats_returns in Hret1
    as (frame & signal1 & Hf & Hc & _ & Huse1 & -> & ->).
  apply separate_hearbeats_returns in Hret2
    as (frame' & signal1' & Hf' & Hc' & Hl2 & Huse2 & -> & ->).
  rewrite Hf in Hf'. injection Hf' as <-. rewrite Hc in Hc'. injection Hc' as <-.
  unfold annotation_pairs in *. simpl in *.
  rewrite (separate_hearbeats_ok _ _ _ _ frame signal1); [| done | done | |].
  - unfold annotation_pairs. simpl. rewrite zip_with_app by done.
    by rewrite windows_of_app, labels_of_app.
  - simpl. rewrite !length_app. lia.
  - unfold annotation_pairs. simpl. rewrite zip_with_app by done. rewrite kept_app.
    destruct Huse1 as [Hfit | Hnone1]; [by left |].
    destruct Huse2 as [Hfit | Hnone2]; [by left |].
    right. by rewrite Hnone1, Hnone2.
Qed.

Lemma segmentation_of_concatenated_annotations_witness :
  length [300; 500] = length ["N"; "+"] /\
  separate_hearbeats (rows (ramp 1000)) {| sample := [300; 500]; symbol := ["N"; "+"] |}
    mean_26 supergroups_inc_n = Ok ([py_slice (ramp 1000) 290 310], [4]) /\
  separate_hearbeats (rows (ramp 1000)) {| sample := [700]; symbol := ["N"] |}
    mean_26 supergroups_inc_n = Ok ([py_slice (ramp 1000) 690 710], [4]) /\
  separate_hearbeats (rows (ramp 1000))
    {| sample := [300; 500] ++ [700]; symbol := ["N"; "+"] ++ ["N"] |}
    mean_26 supergroups_inc_n
  = Ok ([py_slice (ramp 1000) 290 310] ++ [py_slice (ramp 1000) 690 710], [4] ++ [4]).
Proof.
  assert (H1 : separate_hearbeats (rows (ramp 1000))
                 {| sample := [300; 500]; symbol := ["N"; "+"] |}
                 mean_26 supergroups_inc_n = Ok ([py_slice (ramp 1000) 290 310], [4]))
    by (vm_compute; reflexivity).
  assert (H2 : separate_hearbeats (rows (ramp 1000)) {| sample := [700]; symbol := ["N"] |}
                 mean_26 supergroups_inc_n = Ok ([py_slice (ramp 1000) 690 710], [4]))
    by (vm_compute; reflexivity).
  split; [reflexivity |]. split; [exact H1 |]. split; [exact H2 |].
  exact (segmentation_of_concatenated_annotations (rows (ramp 1000)) mean_26
           supergroups_inc_n [300; 500] [700] ["N"; "+"] ["N"] _ _ _ _ eq_refl H1 H2).
Defined.

(** The pairs (window, label) of the closed form, annotation by annotation. *)
Lemma zip_windows_labels_cons {elt : Type} (signal1 : list elt) (frame : Z)
    (classes : gmap string Z) (pos : Z) (sym : string) (rest : list (Z * string)) :
  zip (windows_of signal1 frame classes ((pos, sym) :: rest))
      (labels_of classes ((pos, sym) :: rest))
  = match classes !! sym with
    | Some c => (window signal1 frame pos, c)
                :: zip (windows_of signal1 frame classes rest) (labels_of classes rest)
    | None => zip (windows_of signal1 frame classes rest) (labels_of classes rest)
    end.
Proof.
  destruct (classes !! sym) as [c |] eqn:Hc.
  - unfold windows_of, labels_of. rewrite (kept_cons_key _ _ _ _ _ Hc).
    simpl. by rewrite Hc.
  - by rewrite (windows_of_skip _ _ _ _ _ _ Hc), (labels_of_skip _ _ _ _ Hc).
Qed.

Lemma zip_windows_labels_union {elt : Type} (signal1 : list elt) (frame : Z)
    (classes1 classes2 : gmap string Z) (pairs : list (Z * string)) :
  classes1 ##ₘ classes2 ->
  zip (windows_of signal1 frame (classes1 ∪ classes2) pairs)
      (labels_of (classes1 ∪ classes2) pairs)
  ≡ₚ zip (windows_of signal1 frame classes1 pairs) (labels_of classes1 pairs)
     ++ zip (windows_of signal1 frame classes2 pairs) (labels_of classes2 pairs).
Proof.
  intros Hdisj. induction pairs as [| [pos sym] pairs IH]; [done |].
  rewrite !zip_windows_labels_cons.
  destruct (classes1 !! sym) as [c1 |] eqn:H1, (classes2 !! sym) as [c2 |] eqn:H2.
  - exfalso. exact (proj1 (map_disjoint_spec classes1 classes2) Hdisj sym c1 c2 H1 H2).
  - rewrite (lookup_union_Some_l _ _ _ _ H1). simpl. by rewrite IH.
  - rewrite (lookup_union_r _ _ _ H1), H2. rewrite IH. apply Permutation_middle.
  - rewrite (lookup_union_r _ _ _ H1), H2. exact IH.
Qed.

(** Where neither of two tables has a key among the symbols, their union
    has none. *)
Lemma kept_union_nil (classes1 classes2 : gmap string Z) (pairs : list (Z * string)) :
  kept classes1 pairs = [] -> kept classes2 pairs = [] ->
  kept (classes1 ∪ classes2) pairs = [].
Proof.
  induction pairs as [| [pos sym] pairs IH]; [done |]. intros H1 H2.
  destruct (classes1 !! sym) as [c1 |] eqn:Hc1;
    [by rewrite (kept_cons_key _ _ _ _ _ Hc1) in H1 |].
  destruct (classes2 !! sym) as [c2 |] eqn:Hc2;
    [by rewrite (kept_cons_key _ _ _ _ _ Hc2) in H2 |].
  rewrite (kept_cons_skip _ _ _ _ Hc1) in H1. rewrite (kept_cons_skip _ _ _ _ Hc2) in H2.
  rewrite kept_cons_skip; [by apply IH |].
  by rewrite (lookup_union_r _ _ _ Hc1).
Qed.

(** X8: for two grouping tables without a common symbol, segmenting with
    their union yields, up to order, the pairs (window, label) that the two
    tables yield separately: no beat is lost, none is taken twice, and the
    beat counts add up. *)
Theorem disjoint_tables_partition_the_beats {elt : Type} (signal : list (list elt))
    (annotations : Annotation) (mean_rate : spec_float)
    (classes1 classes2 : gmap string Z)
    (beats1 beats2 : list (list elt)) (cs1 cs2 : list Z) :
  classes1 ##ₘ classes2 ->
  separate_hearbeats signal annotations mean_rate classes1 = Ok (beats1, cs1) ->
  separate_hearbeats signal annotations mean_rate classes2 = Ok (beats2, cs2) ->
  exists beats cs,
    separate_hearbeats signal annotations mean_rate (classes1 ∪ classes2) = Ok (beats, cs) /\
    zip beats cs ≡ₚ zip beats1 cs1 ++ zip beats2 cs2 /\
    length beats = (length beats1 + length beats2)%nat.
Proof.
  intros Hdisj Hret1 Hret2.
  apply separate_hearbeats_returns in Hret1
    as (frame & signal1 & Hf & Hc & Hlen & Huse1 & -> & ->).
  apply separate_hearbeats_returns in Hret2
    as (frame' & signal1' & Hf' & Hc' & _ & Huse2 & -> & ->).
  rewrite Hf in Hf'. injection Hf' as <-. rewrite Hc in Hc'. injection Hc' as <-.
  assert (Huse : fits_int64 frame = true
                 \/ kept (classes1 ∪ classes2) (annotation_pairs annotations) = []).
  { destruct Huse1 as [Hfit | Hnone1]; [by left |].
    destruct Huse2 as [Hfit | Hnone2]; [by left |].
    right. by apply kept_union_nil. }
  eexists _, _. split; [by apply (separate_hearbeats_ok _ _ _ _ frame signal1) |].
  pose proof (zip_windows_labels_union signal1 frame classes1 classes2
                (annotation_pairs annotations) Hdisj) as Hperm.
  split; [exact Hperm |].
  apply Permutation_length in Hperm.
  rewrite length_app, !length_zip_with in Hperm.
  pose proof (windows_labels_length signal1 frame classes1 (annotation_pairs annotations)).
  pose proof (windows_labels_length signal1 frame classes2 (annotation_pairs annotations)).
  pose proof (windows_labels_length signal1 frame (classes1 ∪ classes2)
                (annotation_pairs annotations)).
  lia.
Qed.

Lemma disjoint_tables_partition_the_beats_witness :
  supergroups_exc_n ##ₘ supergroups_inc_n /\
  separate_hearbeats (rows (ramp 1000))
    {| sample := [300; 500; 700]; symbol := ["N"; "V"; "+"] |} mean_26 supergroups_exc_n
  = Ok ([py_slice (ramp 1000) 490 510], [1]) /\
  separate_hearbeats (rows (ramp 1000))
    {| sample := [300; 500; 700]; symbol := ["N"; "V"; "+"] |} mean_26 supergroups_inc_n
  = Ok ([py_slice (ramp 1000) 290 310], [4]) /\
  exists beats cs,
    separate_hearbeats (rows (ramp 1000))
      {| sample := [300; 500; 700]; symbol := ["N"; "V"; "+"] |} mean_26
      (supergroups_exc_n ∪ supergroups_inc_n) = Ok (beats, cs) /\
    zip beats cs ≡ₚ zip [py_slice (ramp 1000) 490 510] [1]
                    ++ zip [py_slice (ramp 1000) 290 310] [4] /\
    length beats = (length [py_slice (ramp 1000) 490 510]
                    + length [py_slice (ramp 1000) 290 310])%nat.
Proof.
  assert (Hd : supergroups_exc_n ##ₘ supergroups_inc_n).
  { apply map_disjoint_spec. intros sym c1 c2 H1 H2.
    unfold supergroups_inc_n in H2. apply lookup_singleton_Some in H2 as [<- _].
    vm_compute in H1. discriminate H1. }
  assert (H1 : separate_hearbeats (rows (ramp 1000))
                 {| sample := [300; 500; 700]; symbol := ["N"; "V"; "+"] |} mean_26
                 supergroups_exc_n = Ok ([py_slice (ramp 1000) 490 510], [1]))
    by (vm_compute; reflexivity).
  assert (H2 : separate_hearbeats (rows (ramp 1000))
                 {| sample := [300; 500; 700]; symbol := ["N"; "V"; "+"] |} mean_26
                 supergroups_inc_n = Ok ([py_slice (ramp 1000) 290 310], [4]))
    by (vm_compute; reflexivity).
  split; [exact Hd |]. split; [exact H1 |]. split; [exact H2 |].
  exact (disjoint_tables_partition_the_beats _ _ _ _ _ _ _ _ _ Hd H1 H2).
Defined.

(** ** Degenerate inputs of the segmenter *)

(** X9: when [annotations.symbol] has fewer entries than
    [annotations.sample], the segmenter raises and returns nothing,
    whatever the table: also the windows cut before the missing symbol was
    reached are lost.  The exception is [IndexError] when the frame is a
    64-bit integer; otherwise it can be the [OverflowError] of a qualifying
    annotation that comes before the missing symbol. *)
Theorem missing_symbols_raise_index_error {elt : Type} (signal : list (list elt))
    (signal1 : list elt) (annotations : Annotation) (mean_rate : spec_float)
    (classes : gmap string Z) :
  positive_finite mean_rate = true ->
  column0 signal = Ok signal1 ->
  (length (symbol annotations) < length (sample annotations))%nat ->
  exists e,
    separate_hearbeats signal annotations mean_rate classes = Raise e /\
    (e = IndexError \/ e = OverflowError) /\
    (frame_fits_int64 mean_rate = true -> e = IndexError).
Proof.
  intros Hpos Hc Hlen.
  destruct (frame_of_positive mean_rate Hpos) as (frame & Hf & _ & _).
  destruct (seg_run_short _ _ _ classes _ _ Hf Hc Hlen) as (e & He & Hcases).
  exists e. split; [unfold separate_hearbeats; by rewrite He |].
  split; [destruct Hcases as [-> | [-> _]]; [by left | by right] |].
  intros Hfits. pose proof (frame_fits_int64_frame _ _ Hf Hfits) as Hfit.
  destruct Hcases as [-> | [_ Hno]]; [done | congruence].
Qed.

Lemma missing_symbols_raise_index_error_witness :
  exists e,
    separate_hearbeats (rows (ramp 1000)) {| sample := [300; 500]; symbol := ["N"] |}
      mean_26 supergroups_inc_n = Raise e /\
    (e = IndexError \/ e = OverflowError) /\
    (frame_fits_int64 mean_26 = true -> e = IndexError).
Proof.
  apply (missing_symbols_raise_index_error (rows (ramp 1000)) (ramp 1000)
           {| sample := [300; 500]; symbol := ["N"] |} mean_26 supergroups_inc_n);
    [reflexivity | reflexivity | simpl; lia].
Defined.

Lemma py_slice_nil {A : Type} (a b : Z) : py_slice (@nil A) a b = [].
Proof. unfold py_slice. by rewrite drop_nil, take_nil. Qed.

Lemma windows_of_nil {elt : Type} (frame : Z) (classes : gmap string Z)
    (pairs : list (Z * string)) :
  windows_of (@nil elt) frame classes pairs
  = replicate (length (kept classes pairs)) [].
Proof.
  unfold windows_of. induction (kept classes pairs) as [| p ps IH]; [done |].
  rewrite fmap_cons, IH. unfold window. by rewrite py_slice_nil.
Qed.

(** X10: on a signal without rows, of shape (0, k) with at least one
    column, the segmenter still returns one window and one label for every
    annotation whose symbol is a key, and every window is empty, when the
    frame of the positive mean beat distance is a 64-bit integer.  On a
    signal without columns it raises [IndexError], for any positive mean
    beat distance. *)
Theorem empty_signal_gives_empty_windows {elt : Type} (others : list (list elt))
    (annotations : Annotation) (mean_rate : spec_float) (classes : gmap string Z) :
  positive_finite mean_rate = true ->
  length (sample annotations) = length (symbol annotations) ->
  (frame_fits_int64 mean_rate = true ->
   exists cs,
     separate_hearbeats ([] :: others) annotations mean_rate classes
     = Ok (replicate (length cs) [], cs) /\
     length cs = length (kept classes (annotation_pairs annotations))) /\
  separate_hearbeats (@nil (list elt)) annotations mean_rate classes = Raise IndexError.
Proof.
  intros Hpos Hlen.
  destruct (frame_of_positive mean_rate Hpos) as (frame & Hf & _ & _).
  split.
  - intros Hfits. pose proof (frame_fits_int64_frame _ _ Hf Hfits) as Hfit.
    exists (labels_of classes (annotation_pairs annotations)).
    pose proof (windows_labels_length (@nil elt) frame classes (annotation_pairs annotations))
      as Hwl.
    split.
    + rewrite (separate_hearbeats_ok _ _ _ _ frame []); [| done | done | lia | by left].
      do 2 f_equal. rewrite <- Hwl, windows_of_nil. by rewrite length_replicate.
    + rewrite <- Hwl. unfold windows_of. by rewrite length_fmap.
  - unfold separate_hearbeats, seg_run. rewrite Hf. done.
Qed.

Lemma empty_signal_gives_empty_windows_witness :
  (frame_fits_int64 mean_26 = true ->
   exists cs,
     separate_hearbeats (@nil Z :: [[]]) around_rhythm_change mean_26 supergroups_inc_n
     = Ok (replicate (length cs) [], cs) /\
     length cs = length (kept supergroups_inc_n (annotation_pairs around_rhythm_change))) /\
  separate_hearbeats (@nil (list Z)) around_rhythm_change mean_26 supergroups_inc_n
  = Raise IndexError.
Proof.
  apply (empty_signal_gives_empty_windows [@nil Z] around_rhythm_change mean_26
           supergroups_inc_n); reflexivity.
Defined.

(** ** The rasterizer *)

Lemma py_slice_0_1 {A : Type} (px : list A) : py_slice px 0 1 = take 1 px.
Proof.
  unfold py_slice, adjust_index.
  change (1 <? 0) with false. change (0 <? 0) with false. cbv iota.
  rewrite (Z.min_l 0) by lia. simpl (Z.to_nat 0). rewrite drop_0.
  destruct px as [| c px]; [by rewrite !take_nil |].
  replace (Z.to_nat (Z.min 1 (Z.of_nat (length (c :: px))) - 0)) with 1%nat
    by (simpl length; lia).
  done.
Qed.

(** X11: when the decoded image has at least one channel in every pixel,
    [get_image_array] returns an array with the same number of rows and the
    same number of pixels in each row, and every pixel of it holds one
    value, channel 0 of the decoded pixel; the other channels are dropped. *)
Theorem get_image_array_keeps_channel_0 {elt : Type}
    (render : list elt -> result (list (list (list Byte.byte))))
    (data : list elt) (img : list (list (list Byte.byte))) :
  render data = Ok img ->
  Forall (Forall (fun px => px <> [])) img ->
  exists out,
    get_image_array render data = Ok out /\
    Forall2 (Forall2 (fun px_out px => exists c rest, px = c :: rest /\ px_out = [c]))
      out img.
Proof.
  intros Hrender Hch. unfold get_image_array. rewrite Hrender. simpl.
  eexists. split; [done |].
  unfold channel_0_1. apply Forall2_fmap_l, Forall_Forall2_diag.
  eapply Forall_impl; [exact Hch |]. intros row Hrow. simpl.
  apply Forall2_fmap_l, Forall_Forall2_diag.
  eapply Forall_impl; [exact Hrow |]. intros px Hpx. simpl.
  destruct px as [| c rest]; [done |]. exists c, rest. by rewrite py_slice_0_1.
Qed.

Lemma get_image_array_keeps_channel_0_witness :
  render_two_pixels [1; 2; 3] = Ok two_pixels /\
  Forall (Forall (fun px : list Byte.byte => px <> [])) two_pixels /\
  exists out,
    get_image_array render_two_pixels [1; 2; 3] = Ok out /\
    Forall2 (Forall2 (fun px_out px => exists c rest, px = c :: rest /\ px_out = [c]))
      out two_pixels.
Proof.
  assert (Hch : Forall (Forall (fun px : list Byte.byte => px <> [])) two_pixels)
    by (repeat constructor; discriminate).
  split; [reflexivity |]. split; [exact Hch |].
  exact (get_image_array_keeps_channel_0 render_two_pixels [1; 2; 3] two_pixels eq_refl Hch).
Defined.

(** ** The frame against the mean beat distance *)

(** Rounding never moves a value across a number of the grid it rounds to:
    the lemmas below follow the two flags of [shr_record] through the shift
    and bound the rounded value of an exactly known product or quotient. *)
Module Rounding.

Lemma shr_1_double (a : Z) :
  0 <= a ->
  shr_1 {| shr_m := 2 * a; shr_r := false; shr_s := false |}
  = {| shr_m := a; shr_r := false; shr_s := false |}.
Proof. destruct a as [| p | p]; intros H; [done | done | lia]. Qed.

Lemma iter_shr_1_exact (p : positive) : forall q : Z,
  0 <= q ->
  SpecFloat.iter_pos shr_1 p {| shr_m := q * 2 ^ Zpos p; shr_r := false; shr_s := false |}
  = {| shr_m := q; shr_r := false; shr_s := false |}.
Proof.
  induction p as [p IH | p IH |]; intros q Hq; cbn [SpecFloat.iter_pos].
  - assert (Hpos : 0 < 2 ^ Zpos p) by (apply Z.pow_pos_nonneg; lia).
    replace (q * 2 ^ Zpos p~1) with (2 * ((q * 2 ^ Zpos p) * 2 ^ Zpos p)).
    + rewrite shr_1_double by nia. rewrite IH by nia. by rewrite IH.
    + replace (Zpos p~1) with (Zpos p + Zpos p + 1) by lia.
      rewrite !Z.pow_add_r by lia. change (2 ^ 1) with 2. lia.
  - assert (Hpos : 0 < 2 ^ Zpos p) by (apply Z.pow_pos_nonneg; lia).
    replace (q * 2 ^ Zpos p~0) with ((q * 2 ^ Zpos p) * 2 ^ Zpos p).
    + rewrite IH by nia. by rewrite IH.
    + replace (Zpos p~0) with (Zpos p + Zpos p) by lia.
      rewrite Z.pow_add_r by lia. lia.
  - change (2 ^ 1) with 2. rewrite (Z.mul_comm q 2). by apply shr_1_double.
Qed.

Lemma shr_fexp_exact_spec (m e : Z) :
  0 <= m ->
  exists mrs n,
    shr_fexp prec emax m e loc_Exact = (mrs, e + n) /\
    0 <= n /\
    e + n = Z.max e (Z.max (Zdigits2 m + e - 53) (-1074)) /\
    shr_m mrs = m / 2 ^ n /\
    (m mod 2 ^ n = 0 -> loc_of_shr_record mrs = loc_Exact).
Proof.
  intros Hm. unfold shr_fexp, shr. rewrite Binary64.fexp_binary64. simpl shr_record_of_loc.
  destruct (Z.max (Zdigits2 m + e - 53) (-1074) - e) as [| p | p] eqn:Hn.
  - eexists _, 0. rewrite Z.add_0_r. simpl shr_m. rewrite Z.div_1_r.
    repeat split; (done || lia).
  - exists (SpecFloat.iter_pos shr_1 p {| shr_m := m; shr_r := false; shr_s := false |}),
      (Zpos p).
    split; [done |]. split; [lia |]. split; [lia |].
    split; [by rewrite Binary64.iter_shr_1_m |].
    intros Hmod. apply Z.div_exact in Hmod; [| apply Z.pow_nonzero; lia].
    rewrite Hmod at 1. rewrite (Z.mul_comm (2 ^ Zpos p)).
    rewrite iter_shr_1_exact; [done |].
    apply Z.div_pos; [done | apply Z.pow_pos_nonneg; lia].
  - eexists _, 0. rewrite Z.add_0_r. simpl shr_m. rewrite Z.div_1_r.
    repeat split; (done || lia).
Qed.

(** The rounded value of [m * 2 ^ e] does not exceed a bound [k * 2 ^ eb]
    that lies on the grid of the rounding.  Values are compared after
    scaling by [2 ^ 1200], which makes every exponent at hand positive. *)
Lemma binary_round_aux_exact_le (m e k eb : Z) :
  0 <= m -> -1200 <= e -> 0 <= k ->
  Z.max e (Z.max (Zdigits2 m + e - 53) (-1074)) <= eb ->
  m * 2 ^ (e + 1200) <= k * 2 ^ (eb + 1200) ->
  match binary_round_aux prec emax false m e loc_Exact with
  | S754_finite _ m' e' =>
      Zpos m' * 2 ^ (e' + 1200) <= k * 2 ^ (eb + 1200) /\ -1074 <= e'
  | _ => True
  end.
Proof.
  intros Hm He Hk Hgrid Hle. unfold binary_round_aux.
  destruct (shr_fexp_exact_spec m e Hm) as (mrs1 & n1 & -> & Hn1 & He1 & Hm1 & Hex).
  set (m1 := round_nearest_even (shr_m mrs1) (loc_of_shr_record mrs1)).
  assert (Hp1 : 0 < 2 ^ n1) by (apply Z.pow_pos_nonneg; lia).
  assert (Hq0 : 0 <= shr_m mrs1) by (rewrite Hm1; apply Z.div_pos; lia).
  (* the bound as a multiple of the grid step *)
  set (K := k * 2 ^ (eb - (e + n1))).
  assert (HK : k * 2 ^ (eb + 1200) = K * 2 ^ (e + n1 + 1200)).
  { unfold K. rewrite <- Z.mul_assoc, <- Z.pow_add_r by lia. f_equal. f_equal. lia. }
  assert (Hstep : 2 ^ (e + n1 + 1200) = 2 ^ n1 * 2 ^ (e + 1200))
    by (rewrite <- Z.pow_add_r by lia; f_equal; lia).
  assert (Hp2 : 0 < 2 ^ (e + 1200)) by (apply Z.pow_pos_nonneg; lia).
  assert (HmK : m <= K * 2 ^ n1) by (rewrite HK, Hstep in Hle; nia).
  assert (Hm1K : m1 <= K).
  { pose proof (Binary64.round_nearest_even_bounds (shr_m mrs1) (loc_of_shr_record mrs1))
      as Hr. fold m1 in Hr.
    pose proof (Z.div_mod m (2 ^ n1) ltac:(lia)) as Hdm.
    pose proof (Z.mod_pos_bound m (2 ^ n1) Hp1) as Hmb.
    destruct (Z.eq_dec (m mod 2 ^ n1) 0) as [Hz | Hnz].
    - unfold m1. rewrite (Hex Hz). simpl. rewrite Hm1. nia.
    - assert (shr_m mrs1 < K) by (rewrite Hm1; nia). lia. }
  assert (Hm1' : 0 <= m1).
  { pose proof (Binary64.round_nearest_even_bounds (shr_m mrs1) (loc_of_shr_record mrs1)).
    fold m1 in H. lia. }
  destruct (Binary64.shr_fexp_spec m1 (e + n1) loc_Exact Hm1')
    as (mrs2 & n2 & -> & Hn2 & He2 & Hm2).
  assert (Hp3 : 0 < 2 ^ n2) by (apply Z.pow_pos_nonneg; lia).
  destruct (shr_m mrs2) as [| p | p] eqn:Hp; [done | | done].
  destruct (e + n1 + n2 <=? emax - prec); [| done].
  split; [| lia].
  rewrite HK.
  replace (e + n1 + n2 + 1200) with (n2 + (e + n1 + 1200)) by lia.
  rewrite Z.pow_add_r by lia.
  assert (Hp4 : 0 < 2 ^ (e + n1 + 1200)) by (apply Z.pow_pos_nonneg; lia).
  assert (Zpos p * 2 ^ n2 <= m1).
  { rewrite Hm2. rewrite Z.mul_comm. apply Z.mul_div_le. done. }
  nia.
Qed.

(** The exponent after rounding is at most one above the exponent of the
    grid. *)
Lemma binary_round_aux_exponent (s : bool) (m e : Z) (l : location) :
  0 <= m ->
  match binary_round_aux prec emax s m e l with
  | S754_finite _ _ e' => e' <= Z.max e (Z.max (Zdigits2 m + e - 53) (-1074)) + 1
  | _ => True
  end.
Proof.
  intros Hm. unfold binary_round_aux.
  destruct (Binary64.shr_fexp_spec m e l Hm) as (mrs1 & n1 & -> & Hn1 & He1 & Hm1).
  set (m1 := round_nearest_even (shr_m mrs1) (loc_of_shr_record mrs1)).
  pose proof (Binary64.round_nearest_even_bounds (shr_m mrs1) (loc_of_shr_record mrs1)) as Hr.
  fold m1 in Hr.
  assert (Hp1 : 0 < 2 ^ n1) by (apply Z.pow_pos_nonneg; lia).
  assert (Hq0 : 0 <= shr_m mrs1) by (rewrite Hm1; apply Z.div_pos; lia).
  pose proof (Binary64.Zdigits2_upper m Hm) as Hd.
  pose proof (Binary64.Zdigits2_nonneg m) as Hd0.
  assert (Hq53 : shr_m mrs1 < 2 ^ 53).
  { rewrite Hm1. apply Z.div_lt_upper_bound; [done |].
    rewrite <- Z.pow_add_r by lia.
    eapply Z.lt_le_trans; [exact Hd |]. apply Z.pow_le_mono_r; lia. }
  assert (Hm1' : 0 <= m1) by lia.
  destruct (Binary64.shr_fexp_spec m1 (e + n1) loc_Exact Hm1')
    as (mrs2 & n2 & -> & Hn2 & He2 & Hm2).
  assert (Hd54 : Zdigits2 m1 <= 54) by (apply Binary64.Zdigits2_le; lia).
  destruct (shr_m mrs2) as [| p | p]; [done | | done].
  destruct (e + n1 + n2 <=? emax - prec); [lia | done].
Qed.

End Rounding.

Module FrameBound.

Lemma bounded_range (m : positive) (e : Z) :
  bounded prec emax m e = true -> Zpos m < 2 ^ 53 /\ -1074 <= e <= 971.
Proof.
  intros H. destruct (Binary64.bounded_inv m e H) as [Hm He].
  split; [done |]. split; [| done].
  unfold bounded, canonical_mantissa in H. rewrite Binary64.fexp_binary64 in H.
  apply andb_prop in H as [Hc _]. apply Z.eqb_eq in Hc. lia.
Qed.

(** The product with [0.786] is not above the factor. *)
Lemma fmul_scale_factor_le (m : positive) (e : Z) :
  bounded prec emax m e = true ->
  match fmul (S754_finite false m e) scale_factor with
  | S754_finite _ m' e' =>
      Zpos m' * 2 ^ (e' + 1200) <= Zpos m * 2 ^ (e + 1200) /\ -1074 <= e'
  | _ => True
  end.
Proof.
  intros [Hm He]%bounded_range. unfold fmul, scale_factor. simpl.
  apply Rounding.binary_round_aux_exact_le; [lia | lia | lia | |].
  - assert (Zdigits2 (Zpos (m * 7079658614226420)) <= 106); [| lia].
    apply Binary64.Zdigits2_le; [lia | lia |].
    rewrite Pos2Z.inj_mul. change (2 ^ 106) with (2 ^ 53 * 2 ^ 53). nia.
  - rewrite Pos2Z.inj_mul.
    replace (e + 1200) with (53 + (e + -53 + 1200)) by lia.
    rewrite (Z.pow_add_r 2 53 (e + -53 + 1200)) by lia.
    assert (0 < 2 ^ (e + -53 + 1200)) by (apply Z.pow_pos_nonneg; lia).
    assert (7079658614226420 <= 2 ^ 53) by (change (2 ^ 53) with 9007199254740992; lia).
    nia.
Qed.

(** Halving a number whose exponent is above the least one is exact before
    rounding, so the half stays under every bound on the grid. *)
Lemma fdiv_two_le (m : positive) (e k eb : Z) :
  Zpos m < 2 ^ 53 -> -1073 <= e <= 971 -> 0 <= k ->
  Zdigits2 (Zpos m) + e - 54 <= eb -> -1074 <= eb ->
  Zpos m * 2 ^ (e - 1 + 1200) <= k * 2 ^ (eb + 1200) ->
  match fdiv (S754_finite false m e) float_of_two with
  | S754_finite _ m' e' =>
      Zpos m' * 2 ^ (e' + 1200) <= k * 2 ^ (eb + 1200) /\ -1074 <= e'
  | _ => True
  end.
Proof.
  intros Hm He Hk Hgrid Heb Hle. unfold fdiv, float_of_two. simpl SFdiv.
  unfold SFdiv_core_binary. rewrite Binary64.fexp_binary64.
  change (Zdigits2 4503599627370496) with 53.
  set (d := Zdigits2 (Zpos m)) in *.
  assert (Hd : 0 <= d <= 53).
  { split; [apply Binary64.Zdigits2_nonneg | apply Binary64.Zdigits2_le; lia]. }
  set (e' := Z.min (Z.max (d + e - (53 + -51) - 53) (-1074)) (e - -51)).
  assert (He' : e' = Z.max (d + e - 55) (-1074)) by lia.
  set (s := e - -51 - e').
  assert (Hs : 52 <= s) by lia.
  assert (Hm' : match s with
                | 0 => Zpos m
                | Zpos _ => Z.shiftl (Zpos m) s
                | Zneg _ => 0
                end = (Zpos m * 2 ^ (s - 52)) * 2 ^ 52).
  { destruct s as [| p | p] eqn:Hse; [lia | | lia].
    rewrite Z.shiftl_mul_pow2 by lia. rewrite <- Z.mul_assoc, <- Z.pow_add_r by lia.
    f_equal. f_equal. lia. }
  rewrite Hm'. change 4503599627370496 with (2 ^ 52).
  destruct (Z.div_eucl (Zpos m * 2 ^ (s - 52) * 2 ^ 52) (2 ^ 52)) as [q r] eqn:Hqr.
  assert (Hq : q = Zpos m * 2 ^ (s - 52)).
  { pose proof (Z.div_mul (Zpos m * 2 ^ (s - 52)) (2 ^ 52) ltac:(done)) as Hdiv.
    unfold Z.div in Hdiv. rewrite Hqr in Hdiv. done. }
  assert (Hr : r = 0).
  { pose proof (Z.mod_mul (Zpos m * 2 ^ (s - 52)) (2 ^ 52) ltac:(done)) as Hmod.
    unfold Z.modulo in Hmod. rewrite Hqr in Hmod. done. }
  subst q r. change (new_location (2 ^ 52) 0) with loc_Exact.
  assert (Hps : 0 < 2 ^ (s - 52)) by (apply Z.pow_pos_nonneg; lia).
  apply Rounding.binary_round_aux_exact_le; [lia | lia | done | |].
  - assert (Zdigits2 (Zpos m * 2 ^ (s - 52)) <= d + (s - 52)); [| lia].
    apply Binary64.Zdigits2_le; [lia | lia |].
    rewrite Z.pow_add_r by lia.
    pose proof (Binary64.Zdigits2_upper (Zpos m) ltac:(lia)) as Hu. fold d in Hu. nia.
  - rewrite <- Z.mul_assoc, <- Z.pow_add_r by lia.
    replace (s - 52 + (e' + 1200)) with (e - 1 + 1200) by lia. done.
Qed.

(** Halving a number with the least exponent gives an exponent far below
    zero. *)
Lemma fdiv_two_tiny (m : positive) :
  Zpos m < 2 ^ 53 ->
  match fdiv (S754_finite false m (-1074)) float_of_two with
  | S754_finite _ _ e' => e' <= -1073
  | _ => True
  end.
Proof.
  intros Hm. unfold fdiv, float_of_two. simpl SFdiv.
  unfold SFdiv_core_binary. rewrite Binary64.fexp_binary64.
  change (Zdigits2 4503599627370496) with 53.
  set (d := Zdigits2 (Zpos m)) in *.
  assert (Hd : 0 <= d <= 53).
  { split; [apply Binary64.Zdigits2_nonneg | apply Binary64.Zdigits2_le; lia]. }
  replace (Z.min (Z.max (d + -1074 - (53 + -51) - 53) (-1074)) (-1074 - -51))
    with (-1074) by lia.
  change (-1074 - -51 - -1074) with 51.
  rewrite Z.shiftl_mul_pow2 by lia.
  destruct (Z.div_eucl (Zpos m * 2 ^ 51) 4503599627370496) as [q r] eqn:Hqr.
  assert (Hq : q = (Zpos m * 2 ^ 51) / 2 ^ 52).
  { change (2 ^ 52) with 4503599627370496. unfold Z.div. by rewrite Hqr. }
  assert (Hq0 : 0 <= q) by (rewrite Hq; apply Z.div_pos; lia).
  assert (Hq52 : q < 2 ^ 52).
  { rewrite Hq. apply Z.div_lt_upper_bound; [lia |].
    change (2 ^ 51) with 2251799813685248. change (2 ^ 52) with 4503599627370496.
    change (2 ^ 53) with 9007199254740992 in Hm. lia. }
  pose proof (Rounding.binary_round_aux_exponent false q (-1074)
                (new_location 4503599627370496 r) Hq0) as Hexp.
  assert (Zdigits2 q <= 52) by (apply Binary64.Zdigits2_le; lia).
  destruct (binary_round_aux prec emax false q (-1074) (new_location 4503599627370496 r));
    try done.
  lia.
Qed.

(** [int] of a positive float through the scaled value. *)
Lemma shiftl_scaled (m e : Z) :
  0 <= m -> -1200 <= e -> Z.shiftl m e = (m * 2 ^ (e + 1200)) / 2 ^ 1200.
Proof.
  intros Hm He. destruct (Z.le_gt_cases 0 e) as [Hpos | Hneg].
  - rewrite Z.shiftl_mul_pow2 by done. rewrite Z.pow_add_r by lia.
    rewrite Z.mul_assoc, Z.div_mul; [done | apply Z.pow_nonzero; lia].
  - rewrite <- (Z.opp_involutive e) at 1. rewrite Z.shiftl_opp_r.
    rewrite Z.shiftr_div_pow2 by lia.
    replace (2 ^ 1200) with (2 ^ (- e) * 2 ^ (e + 1200))
      by (rewrite <- Z.pow_add_r by lia; f_equal; lia).
    rewrite Z.div_mul_cancel_r; [done | |]; apply Z.pow_nonzero; lia.
Qed.

End FrameBound.

Lemma twice_frame_le_int (mean_rate : spec_float) :
  positive_finite mean_rate = true ->
  exists frame n,
    frame_of mean_rate = Ok frame /\ py_int mean_rate = Ok n /\
    0 <= frame /\ 2 * frame <= n.
Proof.
  intros Hpos.
  destruct (frame_of_positive mean_rate Hpos) as (frame & Hf & _ & Hf0).
  exists frame. destruct mean_rate as [| | | [] m e]; try discriminate Hpos.
  simpl in Hpos. exists (Z.shiftl (Zpos m) e).
  split; [done |]. split; [done |]. split; [done |].
  assert (Hn0 : 0 <= Z.shiftl (Zpos m) e) by (apply Z.shiftl_nonneg; lia).
  destruct (FrameBound.bounded_range m e Hpos) as [Hm He].
  pose proof (FrameBound.fmul_scale_factor_le m e Hpos) as Hyle.
  pose proof (Binary64.fmul_scale_factor_nonneg _
                (Binary64.positive_finite_nonneg (S754_finite false m e) Hpos)) as Hynn.
  unfold frame_of, scaled_half in Hf.
  destruct (fmul (S754_finite false m e) scale_factor) as [sy | | | sy my ey] eqn:Hy;
    try done.
  - (* the product is zero *)
    simpl in Hynn. subst sy. simpl in Hf. injection Hf as <-. lia.
  - destruct Hynn as (-> & Hmy & Hey). destruct Hyle as [Hyle Hey0].
    pose proof (Binary64.fdiv_two_nonneg (S754_finite false my ey)
                  (conj eq_refl (conj Hmy Hey))) as Hznn.
    assert (Hpe : 0 < 2 ^ (e + 1200)) by (apply Z.pow_pos_nonneg; lia).
    assert (Hpey : 0 < 2 ^ (ey + 1200)) by (apply Z.pow_pos_nonneg; lia).
    (* the product has no more binary digits before the point than the mean *)
    assert (Hdig : Zdigits2 (Zpos my) + ey <= 53 + e).
    { pose proof (Binary64.digits2_pos_lower my) as Hlo. simpl Zdigits2.
      assert (Hlt : 2 ^ (Zpos (digits2_pos my) - 1 + (ey + 1200)) < 2 ^ (53 + (e + 1200))).
      { rewrite (Z.pow_add_r 2 (Zpos (digits2_pos my) - 1) (ey + 1200)) by lia.
        rewrite (Z.pow_add_r 2 53 (e + 1200)) by lia. nia. }
      apply Z.pow_lt_mono_r_iff in Hlt; lia. }
    destruct (Z_le_gt_dec (-1073) ey) as [Hnormal | Htiny].
    + destruct (Z_le_gt_dec (-1073) e) as [He1 | He1].
      * (* the half of the product is at most the half of the mean *)
        pose proof (FrameBound.fdiv_two_le my ey (Zpos m) (e - 1) Hmy ltac:(lia)
                      ltac:(lia) ltac:(lia) ltac:(lia)) as Hz.
        assert (Hhalf : Zpos my * 2 ^ (ey - 1 + 1200) <= Zpos m * 2 ^ (e - 1 + 1200)).
        { replace (ey + 1200) with (1 + (ey - 1 + 1200)) in Hyle by lia.
          replace (e + 1200) with (1 + (e - 1 + 1200)) in Hyle by lia.
          rewrite (Z.pow_add_r 2 1 (ey - 1 + 1200)) in Hyle by lia.
          rewrite (Z.pow_add_r 2 1 (e - 1 + 1200)) in Hyle by lia.
          change (2 ^ 1) with 2 in Hyle. lia. }
        specialize (Hz Hhalf).
        destruct (fdiv (S754_finite false my ey) float_of_two) as [sz | | | sz mz ez];
          try done.
        -- simpl in Hf. injection Hf as <-. lia.
        -- destruct Hznn as (-> & Hmz & _). destruct Hz as [Hz Hez].
           simpl in Hf. injection Hf as <-.
           rewrite (FrameBound.shiftl_scaled (Zpos mz) ez) by lia.
           rewrite (FrameBound.shiftl_scaled (Zpos m) e) by lia.
           assert (HT : 0 < 2 ^ 1200) by (apply Z.pow_pos_nonneg; lia).
           etransitivity; [apply Z.div_mul_le; lia |].
           apply Z.div_le_mono; [done |].
           replace (e + 1200) with (1 + (e - 1 + 1200)) by lia.
           rewrite (Z.pow_add_r 2 1 (e - 1 + 1200)) by lia.
           change (2 ^ 1) with 2. lia.
      * (* the mean is below one: so is the half of the product *)
        pose proof (FrameBound.fdiv_two_le my ey 1 (-1) Hmy ltac:(lia)
                      ltac:(lia) ltac:(lia) ltac:(lia)) as Hz.
        assert (Hsmall : Zpos m * 2 ^ (e + 1200) <= 2 ^ 1200).
        { assert (e = -1074) by lia. subst e.
          transitivity (2 ^ 53 * 2 ^ (-1074 + 1200)); [nia |].
          rewrite <- Z.pow_add_r by lia. apply Z.pow_le_mono_r; lia. }
        assert (Hhalf : Zpos my * 2 ^ (ey - 1 + 1200) <= 1 * 2 ^ (-1 + 1200)).
        { replace (ey + 1200) with (1 + (ey - 1 + 1200)) in Hyle by lia.
          rewrite (Z.pow_add_r 2 1 (ey - 1 + 1200)) in Hyle by lia.
          replace (2 ^ 1200) with (2 ^ 1 * 2 ^ (-1 + 1200)) in Hsmall
            by (rewrite <- Z.pow_add_r by lia; f_equal).
          change (2 ^ 1) with 2 in *. lia. }
        specialize (Hz Hhalf).
        destruct (fdiv (S754_finite false my ey) float_of_two) as [sz | | | sz mz ez];
          try done.
        -- simpl in Hf. injection Hf as <-. lia.
        -- destruct Hznn as (-> & Hmz & _). destruct Hz as [Hz Hez].
           simpl in Hf. injection Hf as <-.
           rewrite (FrameBound.shiftl_scaled (Zpos mz) ez) by lia.
           rewrite Z.div_small; [lia |].
           split; [apply Z.mul_nonneg_nonneg; [lia | apply Z.pow_nonneg; lia] |].
           eapply Z.le_lt_trans; [exact Hz |].
           rewrite Z.mul_1_l. apply Z.pow_lt_mono_r; lia.
    + (* the product has the least exponent: its half is below one *)
      assert (ey = -1074) by lia. subst ey.
      pose proof (FrameBound.fdiv_two_tiny my Hmy) as Hz.
      destruct (fdiv (S754_finite false my (-1074)) float_of_two) as [sz | | | sz mz ez];
        try done.
      * simpl in Hf. injection Hf as <-. lia.
      * destruct Hznn as (-> & Hmz & _).
        simpl in Hf. injection Hf as <-.
        rewrite <- (Z.opp_involutive ez), Z.shiftl_opp_r, Z.shiftr_div_pow2 by lia.
        rewrite Z.div_small; [lia |].
        split; [lia |]. eapply Z.lt_le_trans; [exact Hmz |].
        apply Z.pow_le_mono_r; lia.
Qed.

(** X12: the window is never wider than the mean beat distance: twice the
    frame is at most the whole part of [mean_rate], for every positive mean
    beat distance, so every window the segmenter returns has at most
    [int(mean_rate)] samples; for a mean beat distance below 2 the frame is
    0 and every window is empty. *)
Theorem window_never_wider_than_mean (mean_rate : spec_float) :
  positive_finite mean_rate = true ->
  exists frame n,
    frame_of mean_rate = Ok frame /\ py_int mean_rate = Ok n /\
    0 <= frame /\ 2 * frame <= n /\
    forall (elt : Type) (signal : list (list elt)) (annotations : Annotation)
           (classes : gmap string Z) beats cs,
      separate_hearbeats signal annotations mean_rate classes = Ok (beats, cs) ->
      Forall (fun w => Z.of_nat (length w) <= n /\ (n < 2 -> w = [])) beats.
Proof.
  intros Hpos.
  destruct (twice_frame_le_int mean_rate Hpos) as (frame & n & Hf & Hn & Hf0 & Hle).
  exists frame, n. repeat (split; [done |]).
  intros elt signal annotations classes beats cs Hret.
  apply separate_hearbeats_returns in Hret
    as (frame' & signal1 & Hf' & Hc & _ & Huse & -> & _).
  rewrite Hf in Hf'. injection Hf' as <-.
  apply column0_inv in Hc as [_ Hsize].
  destruct Huse as [Hfit%fits_int64_spec | Hnone];
    [| unfold windows_of; rewrite Hnone; constructor].
  unfold windows_of. apply Forall_fmap, Forall_forall. intros [pos sym] _. simpl.
  pose proof (window_length signal1 frame pos ltac:(lia) Hsize) as Hw.
  split; [lia |]. intros Hn2. apply length_zero_iff_nil. lia.
Qed.

Lemma window_never_wider_than_mean_witness :
  exists frame n,
    frame_of mean_454_73 = Ok frame /\ py_int mean_454_73 = Ok n /\
    0 <= frame /\ 2 * frame <= n /\
    forall (elt : Type) (signal : list (list elt)) (annotations : Annotation)
           (classes : gmap string Z) beats cs,
      separate_hearbeats signal annotations mean_454_73 classes = Ok (beats, cs) ->
      Forall (fun w => Z.of_nat (length w) <= n /\ (n < 2 -> w = [])) beats.
Proof. apply (window_never_wider_than_mean mean_454_73). reflexivity. Defined.
